(** * Data-analysis scripts: deployment classifier and incident reconciler

    Shallow embedding of
    - [classify_deployment]          (analyze_saas_private.py, lines 26-56)
    - [extract_keywords]             (quality_analysis.py, lines 31-54)
    - [match_incidents_with_jira]    (quality_analysis.py, lines 56-106)

    A Python [str] is a sequence of Unicode code points; it is modelled as
    a list of code points ([N]), so that [len], slicing and [in] count code
    points exactly as Python does.  String constants of the scripts are
    written as UTF-8 literals and decoded to code points by [py]. *)

From Stdlib Require Import String Ascii.
From Stdlib Require Import List NArith Bool Arith Lia Permutation.
Import ListNotations.

(* ================================================================== *)
(** ** Python strings *)
(* ================================================================== *)

Module PyStr.

Definition pystr : Type := list N.

(** *** UTF-8 literals *)

Fixpoint bytes_of_string (s : string) : list N :=
  match s with
  | EmptyString => []
  | String a s' => N_of_ascii a :: bytes_of_string s'
  end.

Definition cont (b : N) : N := N.land b 63.

(** Decoder for well-formed UTF-8 (the literals of this file); a truncated
    sequence at the end of the input is dropped. *)
Fixpoint utf8_decode (bs : list N) : pystr :=
  match bs with
  | [] => []
  | b :: r0 =>
      if (b <? 128)%N then b :: utf8_decode r0
      else match r0 with
      | [] => []
      | c1 :: r1 =>
          if (b <? 224)%N then
            (N.shiftl (N.land b 31) 6 + cont c1)%N :: utf8_decode r1
          else match r1 with
          | [] => []
          | c2 :: r2 =>
              if (b <? 240)%N then
                (N.shiftl (N.land b 15) 12 + N.shiftl (cont c1) 6 + cont c2)%N
                  :: utf8_decode r2
              else match r2 with
              | [] => []
              | c3 :: r3 =>
                  (N.shiftl (N.land b 7) 18 + N.shiftl (cont c1) 12
                   + N.shiftl (cont c2) 6 + cont c3)%N :: utf8_decode r3
              end
          end
      end
  end.

Definition py (s : string) : pystr := utf8_decode (bytes_of_string s).

(** *** Comparison, [in], [startswith] *)

Definition pystr_eq_dec : forall s t : pystr, {s = t} + {s <> t} :=
  list_eq_dec N.eq_dec.

(** [str_eqb s t]: the Python test [s == t] on two strings. *)
Fixpoint str_eqb (s t : pystr) : bool :=
  match s, t with
  | [], [] => true
  | c :: s', d :: t' => (c =? d)%N && str_eqb s' t'
  | _, _ => false
  end.

(** [startswith s p]: [s.startswith(p)]. *)
Fixpoint startswith (s p : pystr) {struct p} : bool :=
  match p with
  | [] => true
  | c :: p' =>
      match s with
      | [] => false
      | d :: s' => (c =? d)%N && startswith s' p'
      end
  end.

(** [str_in needle hay]: the Python test [needle in hay]. *)
Fixpoint str_in (needle hay : pystr) : bool :=
  startswith hay needle ||
  match hay with
  | [] => false
  | _ :: t => str_in needle t
  end.

(** Truth value of a string: [bool(s)]. *)
Definition truthy (s : pystr) : bool :=
  match s with [] => false | _ :: _ => true end.

(** *** [str.lower]

    ASCII capitals go to their small letters.  Outside ASCII, the two code
    points whose lower case reaches into ASCII are modelled: KELVIN SIGN
    (U+212A, lowered to k) and LATIN CAPITAL LETTER I WITH DOT ABOVE (U+0130,
    lowered to i followed by U+0307).  Every other cased letter outside ASCII
    is lowered by Python to letters outside ASCII; the scripts look only for
    the ASCII needles saas and sdk in a lowered string, a test on which those
    letters have no influence, and they are left as they are. *)
Definition lower_cp (c : N) : list N :=
  if ((65 <=? c) && (c <=? 90))%N then [(c + 32)%N]
  else if (c =? 8490)%N then [107%N]
  else if (c =? 304)%N then [105%N; 775%N]
  else [c].

Definition lower (s : pystr) : pystr := flat_map lower_cp s.

(** *** [str.strip]

    The code points for which [str.isspace] holds on a one-character
    string (CPython's [_PyUnicode_IsWhitespace]). *)
Definition isspace (c : N) : bool :=
  (((9 <=? c) && (c <=? 13)) || ((28 <=? c) && (c <=? 32))
   || (c =? 133) || (c =? 160) || (c =? 5760)
   || ((8192 <=? c) && (c <=? 8202))
   || (c =? 8232) || (c =? 8233) || (c =? 8239) || (c =? 8287)
   || (c =? 12288))%N.

Fixpoint lstrip (s : pystr) : pystr :=
  match s with
  | [] => []
  | c :: t => if isspace c then lstrip t else s
  end.

Definition rstrip (s : pystr) : pystr := rev (lstrip (rev s)).

Definition strip (s : pystr) : pystr := rstrip (lstrip s).

(** A text made of whitespace only (the empty text included). *)
Definition all_space (s : pystr) : bool := forallb isspace s.

(** A text whose first code point is not whitespace. *)
Definition visible_head (s : pystr) : bool :=
  match s with
  | [] => false
  | c :: _ => negb (isspace c)
  end.

(** *** [str.replace]

    [replace_from old new s k] rewrites [s] from left to right, the next [k]
    code points belonging to an occurrence of [old] already replaced. *)
Fixpoint replace_from (old new s : pystr) (k : nat) : pystr :=
  match s with
  | [] => []
  | c :: t =>
      match k with
      | S k' => replace_from old new t k'
      | O =>
          if startswith s old
          then new ++ replace_from old new t (length old - 1)
          else c :: replace_from old new t 0
      end
  end.

(** [replace old new s]: [s.replace(old, new)], every non-overlapping
    occurrence from the left; an empty [old] matches between code points. *)
Definition replace (old new s : pystr) : pystr :=
  match old with
  | [] => new ++ flat_map (fun c => c :: new) s
  | _ :: _ => replace_from old new s 0
  end.

End PyStr.

Import PyStr.

(* ================================================================== *)
(** ** Rows of the two tables *)
(* ================================================================== *)

(** A cell of a text column read by pandas: [None] is a missing value (NaN,
    or an absent column reached through [row.get]), [Some s] a string. *)
Definition cell : Type := option pystr.

(** [str(x) if pd.notna(x) else ''] *)
Definition notna_str (x : cell) : pystr :=
  match x with
  | Some s => s
  | None => []
  end.

Definition s_nan : pystr := Eval vm_compute in py "nan".

(** [str(x)]: the missing value prints as nan. *)
Definition cell_str (x : cell) : pystr :=
  match x with
  | Some s => s
  | None => s_nan
  end.

(** One row of the issue-tracker export, with the columns the two scripts
    read: 问题类型, 概要, 描述, 自定义字段(客户名称), 自定义字段(缺陷发现环境). *)
Record IssueRecord : Type := mkIssue {
  issue_type : cell;
  summary : cell;
  description : cell;
  customer_name : cell;
  discovery_environment : cell
}.

(** One row of the incident log: 故障报告名称, 故障日期, 客户. *)
Record IncidentRecord : Type := mkIncident {
  report_name : cell;
  incident_date : cell;
  customer : cell
}.

(* ================================================================== *)
(** ** The deployment classifier (analyze_saas_private.py) *)
(* ================================================================== *)

Module Classifier.

(** The three labels the function returns. *)
Definition SaaS : pystr := Eval vm_compute in py "SaaS".
Definition Private : pystr := Eval vm_compute in py "私有化".
Definition Unclassified : pystr := Eval vm_compute in py "未分类".

Definition s_saas : pystr := Eval vm_compute in py "saas".
Definition s_SaaS_customer : pystr := Eval vm_compute in py "SaaS客户".
Definition s_SDK : pystr := Eval vm_compute in py "SDK".
Definition s_sdk : pystr := Eval vm_compute in py "sdk".

Definition private_keywords : list pystr := Eval vm_compute in
  map py ["福田"; "南方电网"; "OPPO"; "广东电信"; "唯品会"; "好未来"; "招商";
          "新华三"; "跨越"; "TCL"; "百度"; "小红书"; "格力"; "猿辅导";
          "360"; "玉溪"; "东风"; "融云"; "滴滴"; "作业帮"]%string.

(** The tests of the cascade, one per [if] of the source. *)
Definition env_is_saas (env : pystr) : bool :=
  str_in SaaS env || str_in s_saas (lower env).

Definition env_is_private (env : pystr) : bool :=
  str_in Private env.

Definition customer_is_saas (customer : pystr) : bool :=
  str_eqb customer s_SaaS_customer || str_in SaaS customer.

Definition customer_is_sdk (customer : pystr) : bool :=
  str_in s_SDK customer || str_in s_sdk (lower customer).

Definition customer_is_known_private (customer : pystr) : bool :=
  existsb (fun kw => str_in kw customer) private_keywords.

Definition customer_is_named (customer : pystr) : bool :=
  truthy customer && truthy (strip customer).

Definition classify_deployment (row : IssueRecord) : pystr :=
  let env := notna_str (discovery_environment row) in
  let customer := notna_str (customer_name row) in
  if env_is_saas env then SaaS
  else if env_is_private env then Private
  else if customer_is_saas customer then SaaS
  else if customer_is_sdk customer then Private
  else if customer_is_known_private customer then Private
  else if customer_is_named customer then Private
  else Unclassified.

End Classifier.

(* ================================================================== *)
(** ** The incident reconciler (quality_analysis.py) *)
(* ================================================================== *)

Module Reconciler.

Definition s_fault : pystr := Eval vm_compute in py "故障".
Definition s_report : pystr := Eval vm_compute in py "故障报告".
Definition s_de : pystr := Eval vm_compute in py "的".
Definition s_space : pystr := Eval vm_compute in py " ".

Definition kw_table : pystr := Eval vm_compute in py "表格".
Definition kw_form : pystr := Eval vm_compute in py "表单".
Definition kw_doc : pystr := Eval vm_compute in py "文档".
Definition kw_file : pystr := Eval vm_compute in py "文件".
Definition kw_sync : pystr := Eval vm_compute in py "同步".
Definition kw_login : pystr := Eval vm_compute in py "登录".
Definition kw_blank : pystr := Eval vm_compute in py "白屏".

Definition customers : list pystr := Eval vm_compute in
  map py ["猿辅导"; "好未来"; "小红书"; "京东"; "OPPO"; "边锋"; "博纳";
          "广东电信"; "北京凯读"; "滴滴"; "招商"; "融云"; "东风"; "格力";
          "360"; "玉溪"]%string.

(** [extract_keywords(text)]; [None] is a text for which [pd.isna] holds. *)
Definition extract_keywords (text : cell) : list pystr :=
  match text with
  | None => []
  | Some t =>
      filter (fun c => str_in c t) customers
      ++ (if str_in kw_table t || str_in kw_form t then [kw_table] else [])
      ++ (if str_in kw_doc t || str_in kw_file t then [kw_doc] else [])
      ++ (if str_in kw_sync t then [kw_sync] else [])
      ++ (if str_in kw_login t then [kw_login] else [])
      ++ (if str_in kw_blank t then [kw_blank] else [])
  end.

(** Lines 65-67: the strings taken from one incident row. *)
Definition incident_name (row : IncidentRecord) : pystr :=
  cell_str (report_name row).

Definition incident_customer (row : IncidentRecord) : pystr :=
  notna_str (customer row).

(** Lines 75-76: what [keywords.append(customer)] adds. *)
Definition customer_keyword (cust : pystr) : list pystr :=
  if truthy cust && negb (str_eqb cust s_nan) then [cust] else [].

(** Lines 74-76: the keyword list of one incident row. *)
Definition incident_keywords (row : IncidentRecord) : list pystr :=
  extract_keywords (Some (incident_name row))
  ++ customer_keyword (incident_customer row).

(** Lines 79-83. *)
Definition combined_text (jrow : IssueRecord) : pystr :=
  notna_str (summary jrow) ++ s_space ++ notna_str (description jrow)
  ++ s_space ++ notna_str (customer_name jrow).

(** Line 86: [sum(1 for kw in keywords if kw in combined_text)]. *)
Definition keyword_hits (keywords : list pystr) (text : pystr) : nat :=
  length (filter (fun kw => str_in kw text) keywords).

(** Line 89. *)
Definition name_parts (name : pystr) : pystr :=
  strip (replace s_de [] (replace s_report [] name)).

(** Line 90: the condition of the partial name match. *)
Definition name_matches (name text : pystr) : bool :=
  (5 <? length (name_parts name)) && str_in (firstn 10 (name_parts name)) text.

(** Lines 86-91: [match_count] when the threshold is tested. *)
Definition match_count (keywords : list pystr) (name text : pystr) : nat :=
  keyword_hits keywords text + (if name_matches name text then 2 else 0).

(** Lines 78-96, the loop over the fault rows.  [Some jrow] stands for
    [found = True] with [matched_jira = jrow], [None] for [found = False]
    (where [matched_jira] is still [None]). *)
Fixpoint scan_jira (keywords : list pystr) (name : pystr)
    (rows : list IssueRecord) : option IssueRecord :=
  match rows with
  | [] => None
  | jrow :: rest =>
      if 2 <=? match_count keywords name (combined_text jrow)
      then Some jrow
      else scan_jira keywords name rest
  end.

Definition find_match (row : IncidentRecord) (rows : list IssueRecord)
    : option IssueRecord :=
  scan_jira (incident_keywords row) (incident_name row) rows.

(** Line 59: [jira[jira['问题类型'] == '故障']]. *)
Definition is_fault (jrow : IssueRecord) : bool :=
  match issue_type jrow with
  | Some t => str_eqb t s_fault
  | None => false
  end.

Definition jira_faults (jira : list IssueRecord) : list IssueRecord :=
  filter is_fault jira.

(** The dictionaries appended to [matches]. *)
Record MatchEntry : Type := mkMatch {
  incident : IncidentRecord;
  jira : IssueRecord
}.

(** The two lists the function builds and returns. *)
Record Output : Type := mkOutput {
  matches : list MatchEntry;
  no_matches : list IncidentRecord
}.

(** Lines 98-104: one turn of the loop over the incidents. *)
Definition record_outcome (faults : list IssueRecord) (out : Output)
    (row : IncidentRecord) : Output :=
  match find_match row faults with
  | Some jrow => mkOutput (matches out ++ [mkMatch row jrow]) (no_matches out)
  | None => mkOutput (matches out) (no_matches out ++ [row])
  end.

Definition match_incidents_with_jira (incidents : list IncidentRecord)
    (jira : list IssueRecord) : Output :=
  fold_left (record_outcome (jira_faults jira)) incidents (mkOutput [] []).

(** The result for each incident, in the order of the input: the incident,
    and the issue bound to it if there is one. *)
Definition MatchResult : Type := (IncidentRecord * option IssueRecord)%type.

Definition match_results (incidents : list IncidentRecord)
    (jira : list IssueRecord) : list MatchResult :=
  map (fun row => (row, find_match row (jira_faults jira))) incidents.

(** What one result contributes to each of the two returned lists. *)
Definition entry_of (res : MatchResult) : list MatchEntry :=
  match snd res with
  | Some jrow => [mkMatch (fst res) jrow]
  | None => []
  end.

Definition unmatched_of (res : MatchResult) : list IncidentRecord :=
  match snd res with
  | Some _ => []
  | None => [fst res]
  end.

Definition is_matched (jira : list IssueRecord) (row : IncidentRecord) : bool :=
  match find_match row (jira_faults jira) with
  | Some _ => true
  | None => false
  end.

End Reconciler.

(* ================================================================== *)
(** ** The reconciler as a machine *)
(* ================================================================== *)

(** The two nested loops of [match_incidents_with_jira] as a transition
    system: one transition per loop turn.  The state holds the incidents
    still to visit, the scan in progress (the current incident with the fault
    rows not yet tried) and the two lists built so far. *)
Module Machine.
Import Reconciler.

Record State : Type := mkState {
  todo : list IncidentRecord;
  scanning : option (IncidentRecord * list IssueRecord);
  out : Output
}.

Definition count_for (row : IncidentRecord) (jrow : IssueRecord) : nat :=
  match_count (incident_keywords row) (incident_name row) (combined_text jrow).

Inductive step (faults : list IssueRecord) : State -> State -> Prop :=
| step_next : forall row rest o,
    step faults (mkState (row :: rest) None o)
                (mkState rest (Some (row, faults)) o)
| step_hit : forall row jrow js rest o,
    2 <= count_for row jrow ->
    step faults (mkState rest (Some (row, jrow :: js)) o)
                (mkState rest None
                   (mkOutput (matches o ++ [mkMatch row jrow]) (no_matches o)))
| step_miss : forall row jrow js rest o,
    count_for row jrow < 2 ->
    step faults (mkState rest (Some (row, jrow :: js)) o)
                (mkState rest (Some (row, js)) o)
| step_exhausted : forall row rest o,
    step faults (mkState rest (Some (row, [])) o)
                (mkState rest None
                   (mkOutput (matches o) (no_matches o ++ [row]))).

(** A run from a state to the value returned at line 106. *)
Inductive run (faults : list IssueRecord) : State -> Output -> Prop :=
| run_return : forall o, run faults (mkState [] None o) o
| run_step : forall s s' o, step faults s s' -> run faults s' o -> run faults s o.

Definition initial (incidents : list IncidentRecord) : State :=
  mkState incidents None (mkOutput [] []).

Definition Reconciles (incidents : list IncidentRecord)
    (jira : list IssueRecord) (o : Output) : Prop :=
  run (jira_faults jira) (initial incidents) o.

End Machine.

(* ================================================================== *)
(** ** The specification's wording, where it is compared with the code *)
(* ================================================================== *)

Module Described.
Import Reconciler.

(** The partial name match as the specification words it: the report name
    with the generic words removed, and nothing more. *)
Definition described_name_parts (name : pystr) : pystr :=
  replace s_de [] (replace s_report [] name).

Definition described_match_count (keywords : list pystr) (name text : pystr)
    : nat :=
  keyword_hits keywords text
  + (if (5 <? length (described_name_parts name))
        && str_in (firstn 10 (described_name_parts name)) text
     then 2 else 0).

(** The text of a candidate read as the three fields put end to end. *)
Definition described_text (jrow : IssueRecord) : pystr :=
  notna_str (summary jrow) ++ notna_str (description jrow)
  ++ notna_str (customer_name jrow).

(** The domain terms of the keyword derivation, each with the substrings of
    the report name that trigger it. *)
Definition domain_terms : list (pystr * list pystr) :=
  [ (kw_table, [kw_table; kw_form]);
    (kw_doc, [kw_doc; kw_file]);
    (kw_sync, [kw_sync]);
    (kw_login, [kw_login]);
    (kw_blank, [kw_blank]) ].

Definition triggered (name : pystr) (entry : pystr * list pystr) : bool :=
  existsb (fun t => str_in t name) (snd entry).

(** A field that carries no signal: missing, empty, or empty once trimmed. *)
Definition no_signal (x : cell) : bool :=
  negb (truthy (strip (notna_str x))).

End Described.

(* ================================================================== *)
(** ** Rows used as examples *)
(* ================================================================== *)

Module Examples.
Import Classifier Reconciler.

Definition issue (ty sm ds cu env : string) : IssueRecord :=
  mkIssue (Some (py ty)) (Some (py sm)) (Some (py ds)) (Some (py cu))
          (Some (py env)).

(** Both classifier fields blank: no environment, a customer of two spaces. *)
Definition blank_issue : IssueRecord :=
  mkIssue (Some (py "Bug")) (Some (py "x")) None (Some (py "  ")) None.

Definition private_env_saas_customer : IssueRecord :=
  issue "Bug" "" "" "SaaS" "私有化".

Definition lowercase_saas_customer : IssueRecord :=
  issue "Bug" "" "" "saas平台" "".

(** The scenario of the specification. *)
Definition didi : pystr := Eval vm_compute in py "滴滴".
Definition didi_report : pystr := Eval vm_compute in py "滴滴文档同步故障报告".
Definition didi_parts : pystr := Eval vm_compute in py "滴滴文档同步".

Definition didi_incident : IncidentRecord :=
  mkIncident (Some didi_report) None None.

Definition didi_issue : IssueRecord :=
  issue "故障" "滴滴客户反馈" "同步失败" "" "".

Definition didi_doc_issue : IssueRecord :=
  issue "故障" "滴滴文档故障" "同步失败" "" "".

(** A report name with a space before the generic words. *)
Definition padded_incident : IncidentRecord :=
  mkIncident (Some (py "系统崩溃了 故障报告")) None None.

Definition padded_issue : IssueRecord :=
  mkIssue (Some (py "故障")) (Some (py "系统崩溃了 无法访问")) None None None.

(** A report name that triggers every technical term. *)
Definition all_terms_incident : IncidentRecord :=
  mkIncident (Some (py "表格文档同步登录白屏")) None None.

(** The customer column repeats a token of the report name. *)
Definition repeated_incident : IncidentRecord :=
  mkIncident (Some (py "滴滴服务不可用")) None (Some (py "滴滴")).

Definition repeated_issue : IssueRecord :=
  issue "故障" "滴滴客户反馈" "" "" "".

Definition other_issue : IssueRecord :=
  issue "缺陷" "滴滴文档同步" "" "" "".

End Examples.

(* ================================================================== *)
(** ** The rest of quality_analysis.py *)
(* ================================================================== *)

Module Pipeline.
Import Reconciler.





Definition s_dots : pystr := Eval vm_compute in py "...".

(** Line 256 of [generate_report]: the name shown for an unmatched incident,
    [str(n)[:30] + '...' if len(str(n)) > 30 else str(n)]. *)
Definition shown_name (row : IncidentRecord) : pystr :=
  if 30 <? length (cell_str (report_name row))
  then firstn 30 (cell_str (report_name row)) ++ s_dots
  else cell_str (report_name row).

End Pipeline.

(* ================================================================== *)
(** ** Counts and rates over the issue tracker *)
(* ================================================================== *)

(** A row of the issue-tracker export with the two further columns the
    statistics read: 状态 and 自定义字段(严重程度). *)
Record TrackerRow : Type := mkTracker {
  base : IssueRecord;
  status : cell;
  severity : cell
}.

Module Stats.
Import Reconciler.

Definition s_done : pystr := Eval vm_compute in py "完成".
Definition s_P0 : pystr := Eval vm_compute in py "P0".
Definition s_P1 : pystr := Eval vm_compute in py "P1".

Definition unresolved_status : list pystr := Eval vm_compute in
  map py ["待办"; "处理中"; "挂起中"; "重新打开"]%string.

(** [column == s]: false on a missing value. *)
Definition cell_is (s : pystr) (x : cell) : bool :=
  match x with
  | Some t => str_eqb t s
  | None => false
  end.

(** [column.isin(values)]. *)
Definition cell_isin (values : list pystr) (x : cell) : bool :=
  existsb (fun v => cell_is v x) values.

(** [column.str.contains(s, na=False)] for a pattern without regular
    expression operators. *)
Definition cell_contains (s : pystr) (x : cell) : bool :=
  match x with
  | Some t => str_in s t
  | None => false
  end.

Definition is_done (r : TrackerRow) : bool := cell_is s_done (status r).

(** A percentage the scripts compute as [num / den * 100], kept as its two
    operands, or the literal 0 of a guarded division. *)
Inductive Rate : Type :=
| Zero : Rate
| Percent : nat -> nat -> Rate.

(** [num / den * 100 if den > 0 else 0]. *)
Definition guarded_rate (num den : nat) : Rate :=
  if 0 <? den then Percent num den else Zero.


Record SeverityStats : Type := mkSeverityStats {
  p0_total : nat;
  p0_resolved : nat;
  p0_rate : Rate;
  p1_total : nat;
  p1_resolved : nat;
  p1_rate : Rate
}.

(** The entries of the dictionary [analyze_resolution_stats] returns, but for
    status_dist (a [value_counts]); the P0 and P1 entries exist when the
    severity column does. *)
Record ResolutionStats : Type := mkResolutionStats {
  total : nat;
  resolved : nat;
  resolution_rate : Rate;
  by_severity : option SeverityStats;
  unresolved_count : nat
}.

Definition tracker_faults (jira : list TrackerRow) : list TrackerRow :=
  filter (fun r => is_fault (base r)) jira.

(** Lines 203-216. *)
Definition severity_stats (faults : list TrackerRow) : SeverityStats :=
  let p0_df := filter (fun r => cell_contains s_P0 (severity r)) faults in
  let p1_df := filter (fun r => cell_contains s_P1 (severity r)) faults in
  mkSeverityStats
    (length p0_df) (length (filter is_done p0_df))
    (guarded_rate (length (filter is_done p0_df)) (length p0_df))
    (length p1_df) (length (filter is_done p1_df))
    (guarded_rate (length (filter is_done p1_df)) (length p1_df)).

(** Lines 183-223; [has_severity] is
    [severity_col in jira_faults.columns]. *)
Definition analyze_resolution_stats (has_severity : bool)
    (jira : list TrackerRow) : ResolutionStats :=
  let faults := tracker_faults jira in
  let n := length faults in
  let done := length (filter is_done faults) in
  mkResolutionStats n done (guarded_rate done n)
    (if has_severity then Some (severity_stats faults) else None)
    (length (filter (fun r => cell_isin unresolved_status (status r)) faults)).

End Stats.

(* ================================================================== *)
(** ** The body of analyze_saas_private.py *)
(* ================================================================== *)

Module Comparison.
Import Classifier Stats.

Definition bug_types : list pystr := Eval vm_compute in
  map py ["故障"; "缺陷"; "Bug"; "bug"]%string.

(** Line 20: [df[df['问题类型'].isin([...])]]. *)
Definition bug_df (df : list TrackerRow) : list TrackerRow :=
  filter (fun r => cell_isin bug_types (issue_type (base r))) df.

(** Lines 58-63: the rows whose 部署类型 is a given label. *)
Definition with_label (label : pystr) (bugs : list TrackerRow)
    : list TrackerRow :=
  filter (fun r => str_eqb (classify_deployment (base r)) label) bugs.

Definition saas_df := with_label SaaS.
Definition private_df := with_label Private.
Definition unclassified_df := with_label Unclassified.

(** Lines 75-78: the four counts of the overview. *)
Definition overview (bugs : list TrackerRow) : nat * nat * nat * nat :=
  (length (saas_df bugs), length (private_df bugs),
   length (unclassified_df bugs), length bugs).

(** Lines 211-217: the sizes of the pie chart. *)
Definition pie_sizes (bugs : list TrackerRow) : list nat :=
  let sizes := [length (saas_df bugs); length (private_df bugs);
                length (unclassified_df bugs)] in
  if nth 2 sizes 0 =? 0 then firstn 2 sizes else sizes.




End Comparison.

(* ================================================================== *)
(** ** The SaaS test of else/analyze_saas_monthly.py *)
(* ================================================================== *)

Module Monthly.
Import Classifier.


End Monthly.

(* ================================================================== *)
(** ** Further rows used as examples *)
(* ================================================================== *)

Module MoreExamples.
Import Classifier Reconciler Examples.

(** An incident without a report name, with a customer. *)
Definition nameless_incident : IncidentRecord :=
  mkIncident None None (Some didi).

(** An incident whose report name is made of spaces. *)
Definition blank_name_incident : IncidentRecord :=
  mkIncident (Some (py "   ")) None None.


Definition tracker (ty st sev cu env : string) : TrackerRow :=
  mkTracker (issue ty "" "" cu env) (Some (py st)) (Some (py sev)).

Definition sample_tracker : list TrackerRow :=
  [ tracker "故障" "完成" "P0（阻塞性问题）" "" "SaaS生产环境";
    tracker "缺陷" "待办" "P1（核心功能问题）" "福田" "";
    tracker "故障" "已取消" "P2（非核心功能问题）" "" "";
    tracker "任务" "完成" "" "" "" ].

End MoreExamples.

(* ================================================================== *)
(** ** Facts about Python strings *)
(* ================================================================== *)

Section StringFacts.

Lemma str_eqb_eq : forall s t, str_eqb s t = true <-> s = t.
Proof.
  induction s as [|c s IH]; destruct t as [|d t]; simpl; split;
    try congruence; try reflexivity.
  - intros H. apply andb_true_iff in H as [Hc Hs].
    apply N.eqb_eq in Hc. apply IH in Hs. congruence.
  - intros H. injection H as -> ->.
    rewrite N.eqb_refl. simpl. now apply IH.
Qed.

Lemma str_eqb_refl : forall s, str_eqb s s = true.
Proof. intros s. now apply str_eqb_eq. Qed.

Lemma startswith_app : forall p t, startswith (p ++ t) p = true.
Proof.
  induction p as [|c p IH]; intros t; simpl; [reflexivity|].
  now rewrite N.eqb_refl, IH.
Qed.

Lemma startswith_inv : forall p s,
  startswith s p = true -> exists t, s = p ++ t.
Proof.
  induction p as [|c p IH]; intros s H; simpl in H.
  - now exists s.
  - destruct s as [|d s]; [discriminate|].
    apply andb_true_iff in H as [Hc Hs].
    apply N.eqb_eq in Hc. destruct (IH _ Hs) as [t ->].
    exists t. now subst.
Qed.

Lemma startswith_str_in : forall n h,
  startswith h n = true -> str_in n h = true.
Proof. intros n h H. destruct h; simpl; now rewrite H. Qed.

Lemma str_in_intro : forall n a b, str_in n (a ++ n ++ b) = true.
Proof.
  intros n a b. induction a as [|x a IH].
  - simpl app. apply startswith_str_in, startswith_app.
  - simpl. rewrite IH. apply orb_true_r.
Qed.

Lemma str_in_inv : forall n h,
  str_in n h = true -> exists a b, h = a ++ n ++ b.
Proof.
  intros n h. induction h as [|x h IH]; simpl; intros H.
  - rewrite orb_false_r in H. apply startswith_inv in H as [t Ht].
    exists [], t. exact Ht.
  - apply orb_true_iff in H as [H|H].
    + apply startswith_inv in H as [t Ht]. exists [], t. exact Ht.
    + destruct (IH H) as (a & b & ->). now exists (x :: a), b.
Qed.

Lemma str_in_iff : forall n h,
  str_in n h = true <-> exists a b, h = a ++ n ++ b.
Proof.
  intros n h. split.
  - apply str_in_inv.
  - intros (a & b & ->). apply str_in_intro.
Qed.

Lemma str_in_app_l : forall n h t,
  str_in n h = true -> str_in n (h ++ t) = true.
Proof.
  intros n h t H. apply str_in_inv in H as (a & b & ->).
  replace ((a ++ n ++ b) ++ t) with (a ++ n ++ (b ++ t))
    by now rewrite !app_assoc.
  apply str_in_intro.
Qed.

Lemma str_in_app_r : forall n h t,
  str_in n h = true -> str_in n (t ++ h) = true.
Proof.
  intros n h t H. apply str_in_inv in H as (a & b & ->).
  rewrite app_assoc. apply str_in_intro.
Qed.

(** A needle found in a text has its first code point in the text. *)
Lemma str_in_head : forall c n h, str_in (c :: n) h = true -> In c h.
Proof.
  intros c n h H. apply str_in_inv in H as (a & b & ->).
  apply in_or_app. right. now left.
Qed.

Lemma lower_app : forall a b, lower (a ++ b) = lower a ++ lower b.
Proof. intros a b. unfold lower. apply flat_map_app. Qed.

Lemma str_in_lower : forall n h,
  str_in n h = true -> str_in (lower n) (lower h) = true.
Proof.
  intros n h H. apply str_in_inv in H as (a & b & ->).
  rewrite !lower_app. apply str_in_intro.
Qed.

(** *** Whitespace *)

Lemma isspace_lower_cp : forall c, isspace c = true -> lower_cp c = [c].
Proof.
  intros c H. unfold lower_cp.
  destruct ((65 <=? c) && (c <=? 90))%N eqn:E1.
  - exfalso. apply andb_true_iff in E1 as [A B].
    apply N.leb_le in A. apply N.leb_le in B.
    unfold isspace in H.
    repeat (apply orb_true_iff in H as [H|H]);
      try (apply andb_true_iff in H as [H1 H2];
           apply N.leb_le in H1; apply N.leb_le in H2);
      try apply N.eqb_eq in H; lia.
  - destruct (c =? 8490)%N eqn:E2.
    + apply N.eqb_eq in E2. subst c. discriminate.
    + destruct (c =? 304)%N eqn:E3; [|reflexivity].
      apply N.eqb_eq in E3. subst c. discriminate.
Qed.

Lemma all_space_lower : forall s, all_space s = true -> lower s = s.
Proof.
  induction s as [|c s IH]; simpl; intros H; [reflexivity|].
  apply andb_true_iff in H as [Hc Hs].
  rewrite (isspace_lower_cp _ Hc). simpl. now rewrite (IH Hs).
Qed.

Lemma lstrip_nil : forall s, lstrip s = [] -> all_space s = true.
Proof.
  induction s as [|c s IH]; simpl; intros H; [reflexivity|].
  destruct (isspace c); [now apply IH | discriminate].
Qed.

Lemma all_space_lstrip : forall s, all_space s = true -> lstrip s = [].
Proof.
  induction s as [|c s IH]; simpl; intros H; [reflexivity|].
  apply andb_true_iff in H as [Hc Hs]. rewrite Hc. now apply IH.
Qed.

Lemma lstrip_head : forall s c t, lstrip s = c :: t -> isspace c = false.
Proof.
  induction s as [|d s IH]; simpl; intros c t H; [discriminate|].
  destruct (isspace d) eqn:E.
  - eapply IH; eauto.
  - injection H as -> _. exact E.
Qed.

Lemma all_space_rev : forall s, all_space (rev s) = all_space s.
Proof.
  intros s. unfold all_space.
  apply eq_true_iff_eq. rewrite !forallb_forall.
  split; intros H x Hx; apply H; [now apply in_rev in Hx | now apply in_rev].
Qed.

Lemma strip_nil_iff : forall s, strip s = [] <-> all_space s = true.
Proof.
  intros s. unfold strip, rstrip. split.
  - intros H.
    assert (H1 : lstrip (rev (lstrip s)) = []).
    { destruct (lstrip (rev (lstrip s))) as [|x l]; [reflexivity|].
      simpl in H. destruct (rev l); discriminate. }
    apply lstrip_nil in H1. rewrite all_space_rev in H1.
    destruct (lstrip s) as [|c t] eqn:E.
    + now apply lstrip_nil.
    + apply lstrip_head in E. simpl in H1. rewrite E in H1. discriminate.
  - intros H. now rewrite (all_space_lstrip _ H).
Qed.

(** A needle that starts with a visible code point is in no blank text. *)
Lemma str_in_all_space : forall c n h,
  isspace c = false -> all_space h = true -> str_in (c :: n) h = false.
Proof.
  intros c n h Hc Hh. destruct (str_in (c :: n) h) eqn:E; [|reflexivity].
  apply str_in_head in E. unfold all_space in Hh.
  rewrite forallb_forall in Hh. apply Hh in E. congruence.
Qed.

Lemma str_in_blank : forall n h,
  visible_head n = true -> all_space h = true -> str_in n h = false.
Proof.
  intros [|c n] h Hn Hh; simpl in Hn; [discriminate|].
  apply str_in_all_space; [|exact Hh].
  now destruct (isspace c).
Qed.

(** *** The model on the literals of the scripts *)

Example py_ascii : py "SaaS" = [83; 97; 97; 83]%N.
Proof. reflexivity. Qed.

Example py_cjk : py "私有化" = [31169; 26377; 21270]%N.
Proof. reflexivity. Qed.

Example len_counts_code_points : length (py "故障报告") = 4.
Proof. reflexivity. Qed.

Example in_is_substring :
  str_in (py "同步") (py "文档同步失败") = true
  /\ str_in (py "同失") (py "文档同步失败") = false
  /\ str_in [] (py "文档") = true.
Proof. repeat split. Qed.

Example lower_ascii : lower (py "SaaS SDK 私有化") = py "saas sdk 私有化".
Proof. reflexivity. Qed.

Example strip_both_ends : strip (py "  a b  ") = py "a b".
Proof. reflexivity. Qed.

Example replace_all_occurrences :
  replace (py "的") [] (py "我的文档的故障报告") = py "我文档故障报告"
  /\ replace (py "aa") (py "b") (py "aaaaa") = py "bba".
Proof. split; reflexivity. Qed.

End StringFacts.

(* ================================================================== *)
(** ** The classifier *)
(* ================================================================== *)

Section ClassifierFacts.
Import Classifier Described Examples.

Lemma labels_distinct :
  SaaS <> Private /\ SaaS <> Unclassified /\ Private <> Unclassified.
Proof. repeat split; discriminate. Qed.

Lemma classify_cases : forall row,
  classify_deployment row = SaaS \/ classify_deployment row = Private
  \/ classify_deployment row = Unclassified.
Proof.
  intros row. unfold classify_deployment. cbv zeta.
  destruct (env_is_saas _); [now left|].
  destruct (env_is_private _); [now right; left|].
  destruct (customer_is_saas _); [now left|].
  destruct (customer_is_sdk _); [now right; left|].
  destruct (customer_is_known_private _); [now right; left|].
  destruct (customer_is_named _); [now right; left | now right; right].
Qed.

Lemma no_signal_all_space : forall x,
  no_signal x = true -> all_space (notna_str x) = true.
Proof.
  intros x H. unfold no_signal in H. apply strip_nil_iff.
  destruct (strip (notna_str x)); [reflexivity | discriminate].
Qed.

Lemma blank_env_tests : forall env,
  all_space env = true -> env_is_saas env = false /\ env_is_private env = false.
Proof.
  intros env H. unfold env_is_saas, env_is_private.
  rewrite (all_space_lower _ H).
  rewrite !str_in_blank by (reflexivity || assumption). now split.
Qed.

Lemma blank_known_private : forall customer,
  all_space customer = true -> customer_is_known_private customer = false.
Proof.
  intros customer H. unfold customer_is_known_private.
  assert (V : forallb visible_head private_keywords = true) by reflexivity.
  induction private_keywords as [|kw kws IH]; simpl in *; [reflexivity|].
  apply andb_true_iff in V as [V1 V2].
  now rewrite (str_in_blank _ _ V1 H), IH.
Qed.

Lemma blank_customer_tests : forall customer,
  all_space customer = true ->
  customer_is_saas customer = false /\ customer_is_sdk customer = false
  /\ customer_is_known_private customer = false
  /\ customer_is_named customer = false.
Proof.
  intros customer H. repeat split.
  - unfold customer_is_saas.
    rewrite str_in_blank by (reflexivity || assumption).
    destruct (str_eqb customer s_SaaS_customer) eqn:E; [|reflexivity].
    apply str_eqb_eq in E. subst customer. discriminate.
  - unfold customer_is_sdk. rewrite (all_space_lower _ H).
    now rewrite !str_in_blank by (reflexivity || assumption).
  - now apply blank_known_private.
  - unfold customer_is_named.
    apply strip_nil_iff in H. rewrite H. apply andb_false_r.
Qed.

(** C1.  The classifier is defined on every row and returns one of the
    three labels SaaS, 私有化, 未分类 (pairwise different); when the
    environment and the customer name are both missing, empty or made of
    whitespace only, the label is 未分类. *)
Theorem classify_total_no_signal : forall row : IssueRecord,
  (classify_deployment row = SaaS \/ classify_deployment row = Private
   \/ classify_deployment row = Unclassified)
  /\ (SaaS <> Private /\ SaaS <> Unclassified /\ Private <> Unclassified)
  /\ (no_signal (discovery_environment row) = true ->
      no_signal (customer_name row) = true ->
      classify_deployment row = Unclassified).
Proof.
  intros row. split; [apply classify_cases|]. split; [apply labels_distinct|].
  intros He Hc. apply no_signal_all_space in He, Hc.
  destruct (blank_env_tests _ He) as [E1 E2].
  destruct (blank_customer_tests _ Hc) as (C1 & C2 & C3 & C4).
  unfold classify_deployment. cbv zeta.
  now rewrite E1, E2, C1, C2, C3, C4.
Qed.

Lemma classify_total_no_signal_witness :
  no_signal (discovery_environment blank_issue) = true
  /\ no_signal (customer_name blank_issue) = true
  /\ classify_deployment blank_issue = Unclassified.
Proof.
  split; [reflexivity|]. split; [reflexivity|].
  apply (classify_total_no_signal blank_issue); reflexivity.
Defined.

Lemma lower_SaaS : lower SaaS = s_saas.
Proof. reflexivity. Qed.

(** The exact-case test of line 31 is covered by the lowered one. *)
Lemma not_saas_any_case : forall env,
  str_in s_saas (lower env) = false -> env_is_saas env = false.
Proof.
  intros env H. unfold env_is_saas. rewrite H.
  destruct (str_in SaaS env) eqn:E; [|reflexivity].
  apply str_in_lower in E. rewrite lower_SaaS in E. congruence.
Qed.

(** C4.  A row whose environment contains 私有化, and contains SaaS in no
    casing, is classified 私有化 whatever the customer name is; so is the
    row with environment 私有化 and customer name SaaS. *)
Theorem private_env_before_customer : forall row : IssueRecord,
  str_in Private (notna_str (discovery_environment row)) = true ->
  str_in s_saas (lower (notna_str (discovery_environment row))) = false ->
  classify_deployment row = Private
  /\ classify_deployment private_env_saas_customer = Private.
Proof.
  intros row Hp Hs. split; [|reflexivity].
  unfold classify_deployment. cbv zeta.
  rewrite (not_saas_any_case _ Hs).
  unfold env_is_private. now rewrite Hp.
Qed.

Lemma private_env_before_customer_witness :
  notna_str (customer_name private_env_saas_customer) = SaaS
  /\ classify_deployment private_env_saas_customer = Private.
Proof.
  split; [reflexivity|].
  apply (private_env_before_customer private_env_saas_customer); reflexivity.
Defined.

Lemma lowered_saas_is_named : forall customer,
  str_in s_saas (lower customer) = true -> customer_is_named customer = true.
Proof.
  intros customer H. unfold customer_is_named.
  destruct customer as [|c t]; [discriminate|]. simpl truthy.
  destruct (strip (c :: t)) eqn:E; [|reflexivity].
  apply strip_nil_iff in E.
  rewrite (all_space_lower _ E) in H.
  rewrite str_in_blank in H by (reflexivity || assumption). discriminate.
Qed.

Lemma exact_saas_customer : forall customer,
  str_in SaaS customer = false -> customer_is_saas customer = false.
Proof.
  intros customer H. unfold customer_is_saas. rewrite H.
  destruct (str_eqb customer s_SaaS_customer) eqn:E; [|reflexivity].
  apply str_eqb_eq in E. subst customer. discriminate.
Qed.

(** C10.  With an empty environment, a customer name that contains saas
    only in a casing other than SaaS, no SDK marker and no known private
    customer passes the SaaS, SDK and known-customer rules, is caught by the
    rule for named customers and is classified 私有化, not SaaS; the same
    text in the environment field is classified SaaS. *)
Theorem customer_saas_rule_case_sensitive :
  forall (row : IssueRecord) (name : pystr),
  notna_str (discovery_environment row) = [] ->
  customer_name row = Some name ->
  str_in s_saas (lower name) = true ->
  str_in SaaS name = false ->
  customer_is_sdk name = false ->
  customer_is_known_private name = false ->
  customer_is_saas name = false
  /\ customer_is_named name = true
  /\ classify_deployment row = Private
  /\ classify_deployment row <> SaaS
  /\ classify_deployment
       (mkIssue (issue_type row) (summary row) (description row)
                (customer_name row) (Some name)) = SaaS.
Proof.
  intros row name He Hc Hl Hx Hsdk Hkp.
  pose proof (exact_saas_customer _ Hx) as H3.
  pose proof (lowered_saas_is_named _ Hl) as H6.
  assert (Hp : classify_deployment row = Private).
  { unfold classify_deployment. cbv zeta. rewrite He, Hc. simpl notna_str.
    now rewrite H3, Hsdk, Hkp, H6. }
  repeat split; try assumption.
  - rewrite Hp. discriminate.
  - unfold classify_deployment. cbv zeta. simpl notna_str.
    unfold env_is_saas. rewrite Hl. now rewrite orb_true_r.
Qed.

Lemma customer_saas_rule_case_sensitive_witness :
  customer_name lowercase_saas_customer = Some (py "saas平台")
  /\ classify_deployment lowercase_saas_customer = Private.
Proof.
  split; [reflexivity|].
  apply (customer_saas_rule_case_sensitive lowercase_saas_customer
           (py "saas平台")); reflexivity.
Defined.

(** The two classifier scenarios of the specification. *)
Example saas_environment_scenario :
  classify_deployment (issue "Bug" "" "" "" "SaaS生产环境") = SaaS.
Proof. reflexivity. Qed.

Example known_private_customer_scenario :
  classify_deployment (issue "Bug" "" "" "福田" "") = Private.
Proof. reflexivity. Qed.

End ClassifierFacts.

(* ================================================================== *)
(** ** The reconciler: counting *)
(* ================================================================== *)

Section CountFacts.
Import Reconciler Described Examples.

Lemma keyword_hits_app : forall ks1 ks2 text,
  keyword_hits (ks1 ++ ks2) text = keyword_hits ks1 text + keyword_hits ks2 text.
Proof.
  intros. unfold keyword_hits. now rewrite filter_app, length_app.
Qed.

Lemma keyword_hits_cons : forall kw ks text,
  keyword_hits (kw :: ks) text
  = (if str_in kw text then 1 else 0) + keyword_hits ks text.
Proof.
  intros. unfold keyword_hits. simpl. now destruct (str_in kw text).
Qed.

Lemma keyword_hits_insert : forall ks1 kw ks2 text,
  keyword_hits (ks1 ++ kw :: ks2) text
  = (if str_in kw text then 1 else 0) + keyword_hits (ks1 ++ ks2) text.
Proof.
  intros. rewrite !keyword_hits_app, keyword_hits_cons. lia.
Qed.

(** C7.  For a fixed report name and candidate text, a keyword that is a
    substring of the text, added anywhere in the keyword list (at its end, as
    [keywords.append] does, in particular), raises [match_count] by one: the
    count does not decrease and a candidate at or above the threshold stays
    there. *)
Theorem match_count_monotone :
  forall (ks1 ks2 : list pystr) (kw name text : pystr),
  str_in kw text = true ->
  match_count (ks1 ++ kw :: ks2) name text
    = S (match_count (ks1 ++ ks2) name text)
  /\ match_count (ks1 ++ ks2) name text
       <= match_count (ks1 ++ kw :: ks2) name text
  /\ ((2 <=? match_count (ks1 ++ ks2) name text) = true ->
      (2 <=? match_count (ks1 ++ kw :: ks2) name text) = true).
Proof.
  intros ks1 ks2 kw name text H.
  assert (E : match_count (ks1 ++ kw :: ks2) name text
              = S (match_count (ks1 ++ ks2) name text)).
  { unfold match_count. rewrite keyword_hits_insert, H. reflexivity. }
  split; [exact E|]. split; [lia|].
  rewrite !Nat.leb_le. lia.
Qed.

Lemma match_count_monotone_witness :
  str_in kw_sync (combined_text didi_issue) = true
  /\ match_count ([py "滴滴"] ++ kw_sync :: []) (incident_name didi_incident)
       (combined_text didi_issue) = 2
  /\ match_count ([py "滴滴"] ++ []) (incident_name didi_incident)
       (combined_text didi_issue) = 1.
Proof.
  split; [reflexivity|].
  pose proof (match_count_monotone [py "滴滴"] [] kw_sync
                (incident_name didi_incident) (combined_text didi_issue)
                eq_refl) as [E _].
  split; [rewrite E|]; reflexivity.
Defined.

End CountFacts.

(* ================================================================== *)
(** ** The reconciler: the two loops *)
(* ================================================================== *)

Section LoopFacts.
Import Reconciler Described Examples.

Lemma scan_jira_some : forall ks name rows jrow,
  scan_jira ks name rows = Some jrow <->
  exists pre post,
    rows = pre ++ jrow :: post
    /\ 2 <= match_count ks name (combined_text jrow)
    /\ Forall (fun c => match_count ks name (combined_text c) < 2) pre.
Proof.
  intros ks name rows jrow. split.
  - induction rows as [|a rows IH]; cbn [scan_jira]; [discriminate|].
    destruct (2 <=? match_count ks name (combined_text a)) eqn:E.
    + intros [= ->]. apply Nat.leb_le in E.
      exists [], rows. repeat split; [exact E | constructor].
    + intros H. apply Nat.leb_gt in E.
      destruct (IH H) as (pre & post & -> & Hj & Hpre).
      exists (a :: pre), post. repeat split; [exact Hj | now constructor].
  - intros (pre & post & -> & Hj & Hpre).
    induction Hpre as [|a pre Ha _ IH]; cbn [app scan_jira].
    + apply Nat.leb_le in Hj. now rewrite Hj.
    + apply Nat.leb_gt in Ha. now rewrite Ha.
Qed.

Lemma scan_jira_none : forall ks name rows,
  scan_jira ks name rows = None <->
  Forall (fun c => match_count ks name (combined_text c) < 2) rows.
Proof.
  intros ks name rows. induction rows as [|a rows IH]; cbn [scan_jira].
  - split; [constructor | reflexivity].
  - destruct (2 <=? match_count ks name (combined_text a)) eqn:E.
    + apply Nat.leb_le in E. split; [discriminate|].
      intros H. inversion H; subst. lia.
    + apply Nat.leb_gt in E. rewrite IH. split.
      * now constructor.
      * intros H. now inversion H.
Qed.

Lemma is_fault_iff : forall jrow,
  is_fault jrow = true <-> issue_type jrow = Some s_fault.
Proof.
  intros jrow. unfold is_fault. destruct (issue_type jrow) as [t|].
  - rewrite str_eqb_eq. split; congruence.
  - split; discriminate.
Qed.

(** The loop over the incidents, from any value of the two lists. *)
Lemma fold_record_outcome : forall faults incidents acc,
  fold_left (record_outcome faults) incidents acc
  = mkOutput
      (matches acc
       ++ flat_map entry_of (map (fun r => (r, find_match r faults)) incidents))
      (no_matches acc
       ++ flat_map unmatched_of
            (map (fun r => (r, find_match r faults)) incidents)).
Proof.
  intros faults incidents. induction incidents as [|r l IH]; intros acc; simpl.
  - rewrite !app_nil_r. now destruct acc.
  - rewrite IH. unfold record_outcome, entry_of, unmatched_of. simpl.
    destruct (find_match r faults); simpl; now rewrite <- ?app_assoc.
Qed.

Lemma output_by_results : forall incidents jira,
  match_incidents_with_jira incidents jira
  = mkOutput (flat_map entry_of (match_results incidents jira))
             (flat_map unmatched_of (match_results incidents jira)).
Proof.
  intros. unfold match_incidents_with_jira. now rewrite fold_record_outcome.
Qed.

Lemma matched_incidents : forall incidents jira,
  map incident (flat_map entry_of (match_results incidents jira))
  = filter (is_matched jira) incidents.
Proof.
  intros incidents jira. unfold match_results, is_matched.
  induction incidents as [|r l IH]; simpl; [reflexivity|].
  rewrite map_app, IH. unfold entry_of. simpl.
  now destruct (find_match r (jira_faults jira)).
Qed.

Lemma unmatched_incidents : forall incidents jira,
  flat_map unmatched_of (match_results incidents jira)
  = filter (fun r => negb (is_matched jira r)) incidents.
Proof.
  intros incidents jira. unfold match_results, is_matched.
  induction incidents as [|r l IH]; simpl; [reflexivity|].
  rewrite IH. unfold unmatched_of. simpl.
  now destruct (find_match r (jira_faults jira)).
Qed.

Lemma filter_split_perm : forall (A : Type) (p : A -> bool) (l : list A),
  Permutation (filter p l ++ filter (fun x => negb (p x)) l) l.
Proof.
  intros A p l. induction l as [|x l IH]; simpl; [constructor|].
  destruct (p x); simpl.
  - now constructor.
  - apply Permutation_sym, Permutation_cons_app, Permutation_sym, IH.
Qed.

Lemma in_entries : forall incidents jira e,
  In e (flat_map entry_of (match_results incidents jira)) <->
  In (incident e) incidents
  /\ find_match (incident e) (jira_faults jira) = Some (Reconciler.jira e).
Proof.
  intros incidents jira e. unfold match_results.
  rewrite in_flat_map. split.
  - intros (res & Hres & He). apply in_map_iff in Hres as (r & <- & Hr).
    unfold entry_of in He. simpl in He.
    destruct (find_match r (jira_faults jira)) as [j|] eqn:E; [|contradiction].
    destruct He as [<-|[]]. simpl. now split.
  - intros [Hr Hf]. exists (incident e, find_match (incident e) (jira_faults jira)).
    split.
    + apply in_map_iff. now exists (incident e).
    + unfold entry_of. simpl. rewrite Hf. left. now destruct e.
Qed.

(** C3.  There is one result per incident, in the order of the input; the
    two returned lists are the results with and without an issue; the
    incidents of [matches] are the input incidents for which the scan finds an
    issue and [no_matches] holds the others, in the order of the input, so
    the two lists split the input, their lengths add up to its length and no
    incident is in both; an incident is bound to one issue only. *)
Theorem reconciler_partition :
  forall (incidents : list IncidentRecord) (jira : list IssueRecord),
  let o := match_incidents_with_jira incidents jira in
  let results := match_results incidents jira in
  length results = length incidents
  /\ map fst results = incidents
  /\ matches o = flat_map entry_of results
  /\ no_matches o = flat_map unmatched_of results
  /\ map incident (matches o) = filter (is_matched jira) incidents
  /\ no_matches o = filter (fun r => negb (is_matched jira r)) incidents
  /\ length (matches o) + length (no_matches o) = length incidents
  /\ Permutation (map incident (matches o) ++ no_matches o) incidents
  /\ (forall r, In r (map incident (matches o)) -> ~ In r (no_matches o))
  /\ (forall e1 e2, In e1 (matches o) -> In e2 (matches o) ->
        incident e1 = incident e2 -> Reconciler.jira e1 = Reconciler.jira e2).
Proof.
  intros incidents jira o results. subst o results.
  rewrite output_by_results. simpl matches. simpl no_matches.
  rewrite matched_incidents, unmatched_incidents.
  pose proof (filter_split_perm _ (is_matched jira) incidents) as P.
  repeat split.
  - unfold match_results. apply length_map.
  - unfold match_results. rewrite map_map. simpl. apply map_id.
  - apply Permutation_length in P. rewrite length_app in P.
    rewrite <- (length_map incident), matched_incidents. exact P.
  - exact P.
  - intros r H1 H2. apply filter_In in H1 as [_ H1].
    apply filter_In in H2 as [_ H2]. rewrite H1 in H2. discriminate.
  - intros e1 e2 H1 H2 E. apply in_entries in H1 as [_ H1].
    apply in_entries in H2 as [_ H2]. rewrite E in H1. congruence.
Qed.

Lemma in_unmatched : forall incidents jira row,
  In row (flat_map unmatched_of (match_results incidents jira)) <->
  In row incidents /\ find_match row (jira_faults jira) = None.
Proof.
  intros incidents jira row. rewrite unmatched_incidents, filter_In.
  unfold is_matched.
  destruct (find_match row (jira_faults jira)); simpl;
    split; intros [H1 H2]; split; congruence.
Qed.

(** C2, as the code has it.  The candidates are the rows of issue type 故障,
    in source order.  The text of a candidate is its summary, description and
    customer name joined by single spaces.  [match_count] is the number of
    keywords, counted with repetitions, that are substrings of the text, plus
    2 when the report name with 故障报告 and 的 removed and then trimmed of
    surrounding whitespace is longer than 5 and its first 10 code points are
    a substring of the text.  The scan binds the first candidate whose count
    is at least 2; it binds none exactly when every candidate stays below 2,
    and the incident is then returned in [no_matches]. *)
Theorem first_match_binding :
  forall (row : IncidentRecord) (jira : list IssueRecord),
  let cands := jira_faults jira in
  let ks := incident_keywords row in
  let name := incident_name row in
  let trimmed :=
    strip (replace (py "的") [] (replace (py "故障报告") [] name)) in
  (cands = filter is_fault jira
   /\ forall c, is_fault c = true <-> issue_type c = Some s_fault)
  /\ (forall c,
        combined_text c
        = notna_str (summary c) ++ py " " ++ notna_str (description c)
          ++ py " " ++ notna_str (customer_name c))
  /\ (forall c,
        match_count ks name (combined_text c)
        = length (filter (fun kw => str_in kw (combined_text c)) ks)
          + (if (5 <? length trimmed)
                && str_in (firstn 10 trimmed) (combined_text c)
             then 2 else 0))
  /\ (forall jrow,
        find_match row cands = Some jrow <->
        exists pre post,
          cands = pre ++ jrow :: post
          /\ 2 <= match_count ks name (combined_text jrow)
          /\ Forall (fun c => match_count ks name (combined_text c) < 2) pre)
  /\ (find_match row cands = None <->
      Forall (fun c => match_count ks name (combined_text c) < 2) cands)
  /\ (forall incidents jrow,
        In (mkMatch row jrow) (matches (match_incidents_with_jira incidents jira))
        <-> In row incidents /\ find_match row cands = Some jrow)
  /\ (forall incidents,
        In row (no_matches (match_incidents_with_jira incidents jira))
        <-> In row incidents /\ find_match row cands = None).
Proof.
  intros row jira cands ks name trimmed. subst cands ks name trimmed.
  split; [split; [reflexivity | apply is_fault_iff]|].
  split; [reflexivity|]. split; [reflexivity|].
  split; [intros jrow; apply scan_jira_some|].
  split; [apply scan_jira_none|].
  split.
  - intros incidents jrow. rewrite output_by_results. simpl matches.
    now rewrite in_entries.
  - intros incidents. rewrite output_by_results. simpl no_matches.
    apply in_unmatched.
Qed.

(** C2, as it is worded, fails: the report name 系统崩溃了 故障报告 without
    its generic words keeps a final space and has six code points, which are
    a substring of the summary 系统崩溃了 无法访问 of the only candidate, so
    that the count as worded is 2 (on the text of the code, and on the three
    fields put end to end as well); the code trims the name to five code
    points, counts 0 and returns the incident unmatched. *)
Lemma untrimmed_name_not_bound :
  jira_faults [padded_issue] = [padded_issue]
  /\ described_match_count (incident_keywords padded_incident)
       (incident_name padded_incident) (combined_text padded_issue) = 2
  /\ described_match_count (incident_keywords padded_incident)
       (incident_name padded_incident) (described_text padded_issue) = 2
  /\ match_count (incident_keywords padded_incident)
       (incident_name padded_incident) (combined_text padded_issue) = 0
  /\ match_incidents_with_jira [padded_incident] [padded_issue]
     = mkOutput [] [padded_incident].
Proof. repeat split; reflexivity. Qed.

End LoopFacts.

(* ================================================================== *)
(** ** The reconciler: keywords *)
(* ================================================================== *)

Section KeywordFacts.
Import Reconciler Described Examples.

Lemma in_customer_keyword : forall cust k,
  In k (customer_keyword cust) <-> k = cust /\ k <> [] /\ k <> s_nan.
Proof.
  intros cust k. unfold customer_keyword.
  destruct cust as [|c t]; simpl truthy.
  - simpl. split; [contradiction | intros (-> & H & _); now apply H].
  - rewrite andb_true_l.
    destruct (str_eqb (c :: t) s_nan) eqn:E; simpl.
    + apply str_eqb_eq in E. split; [contradiction|].
      intros (-> & _ & H). now apply H.
    + split.
      * intros [<-|[]]. repeat split; [discriminate|].
        intros H. rewrite H, str_eqb_refl in E. discriminate.
      * intros (-> & _). now left.
Qed.

Lemma extract_keywords_terms : forall name,
  extract_keywords (Some name)
  = filter (fun c => str_in c name) customers
    ++ map fst (filter (triggered name) domain_terms).
Proof.
  intros name. unfold extract_keywords. f_equal.
  unfold domain_terms, triggered.
  cbn [filter existsb snd fst map].
  rewrite !orb_false_r.
  destruct (str_in kw_table name || str_in kw_form name),
           (str_in kw_doc name || str_in kw_file name),
           (str_in kw_sync name), (str_in kw_login name),
           (str_in kw_blank name); reflexivity.
Qed.

Lemma incident_keywords_parts : forall row,
  incident_keywords row
  = filter (fun c => str_in c (incident_name row)) customers
    ++ map fst (filter (triggered (incident_name row)) domain_terms)
    ++ customer_keyword (incident_customer row).
Proof.
  intros row. unfold incident_keywords. rewrite extract_keywords_terms.
  now rewrite <- app_assoc.
Qed.

(** C5, with the count of the domain terms as the code has it.  The keyword
    list of an incident is made of the tokens of the customer list that are
    substrings of the report name, then the five domain terms 表格, 文档,
    同步, 登录, 白屏, each present exactly when one of its trigger substrings
    is in the report name, then the customer field when it is present, not
    empty and not the text nan. *)
Theorem keywords_derivation : forall row : IncidentRecord,
  let name := incident_name row in
  incident_keywords row
  = filter (fun c => str_in c name) customers
    ++ map fst (filter (triggered name) domain_terms)
    ++ customer_keyword (incident_customer row)
  /\ length domain_terms = 5
  /\ NoDup (map fst domain_terms)
  /\ (forall k,
        In k (incident_keywords row) <->
        (In k customers /\ str_in k name = true)
        \/ (exists e, In e domain_terms /\ triggered name e = true /\ k = fst e)
        \/ (customer row = Some k /\ k <> [] /\ k <> s_nan)).
Proof.
  intros row name. subst name.
  pose proof (incident_keywords_parts row) as E.
  split; [exact E|]. split; [reflexivity|]. split.
  { repeat constructor; simpl; intuition discriminate. }
  intros k. rewrite E, !in_app_iff, filter_In, in_map_iff, in_customer_keyword.
  split.
  - intros [H|[(e & <- & He)|(-> & H1 & H2)]].
    + now left.
    + apply filter_In in He as [He1 He2]. right; left. now exists e.
    + right; right. unfold incident_customer in *.
      destruct (customer row); [now repeat split | now elim H1].
  - intros [H|[(e & He1 & He2 & ->)|(Hc & H1 & H2)]].
    + now left.
    + right; left. exists e. split; [reflexivity|]. now apply filter_In.
    + right; right. unfold incident_customer. rewrite Hc. now repeat split.
Qed.

(** C5, as it is worded, fails on the number of domain terms: no list of
    four terms accounts for the keywords, since the report name
    表格文档同步登录白屏, with no customer, has five different keywords, none
    of them a token of the customer list. *)
Lemma four_terms_not_enough :
  ~ exists terms : list pystr,
      length terms = 4
      /\ forall row k,
           In k (incident_keywords row) ->
           (In k customers /\ str_in k (incident_name row) = true)
           \/ In k terms
           \/ customer row = Some k.
Proof.
  intros (terms & L & H).
  assert (I : incl [kw_table; kw_doc; kw_sync; kw_login; kw_blank] terms).
  { intros k Hk.
    destruct (H all_terms_incident k) as [[Hc _]|[Ht|Hn]].
    - exact Hk.
    - exfalso. simpl in Hk, Hc.
      repeat (destruct Hk as [<-|Hk];
              [clear -Hc; intuition discriminate|]).
      exact Hk.
    - exact Ht.
    - discriminate. }
  assert (D : NoDup [kw_table; kw_doc; kw_sync; kw_login; kw_blank]).
  { repeat constructor; simpl; intuition discriminate. }
  pose proof (NoDup_incl_length D I) as Hlen.
  rewrite L in Hlen. simpl in Hlen. lia.
Qed.

Lemma in_summary_text : forall jrow s kw,
  summary jrow = Some s -> str_in kw s = true ->
  str_in kw (combined_text jrow) = true.
Proof.
  intros jrow s kw Hs H. unfold combined_text. rewrite Hs. simpl notna_str.
  now apply str_in_app_l.
Qed.

Lemma in_description_text : forall jrow d kw,
  description jrow = Some d -> str_in kw d = true ->
  str_in kw (combined_text jrow) = true.
Proof.
  intros jrow d kw Hd H. unfold combined_text. rewrite Hd. simpl notna_str.
  apply str_in_app_r, str_in_app_r. now apply str_in_app_l.
Qed.

Lemma scan_jira_head : forall ks name jrow rest,
  2 <= match_count ks name (combined_text jrow) ->
  scan_jira ks name (jrow :: rest) = Some jrow.
Proof.
  intros ks name jrow rest H. cbn [scan_jira].
  apply Nat.leb_le in H. now rewrite H.
Qed.

(** C8, with the count as the code has it.  For the report name
    滴滴文档同步故障报告 and no keyword from the customer field, the keywords
    are 滴滴, 文档 and 同步.  Against an issue whose summary contains 滴滴
    and whose description contains 同步, both are in the text, [match_count]
    is 2, plus 1 when the text contains 文档, plus 2 when it contains
    滴滴文档同步; it is at least 2 and the issue is bound when the scan
    reaches it. *)
Theorem didi_scenario :
  forall (row : IncidentRecord) (jrow : IssueRecord) (s d : pystr),
  report_name row = Some didi_report ->
  customer_keyword (incident_customer row) = [] ->
  summary jrow = Some s -> str_in didi s = true ->
  description jrow = Some d -> str_in kw_sync d = true ->
  let text := combined_text jrow in
  let count := match_count (incident_keywords row) (incident_name row) text in
  incident_keywords row = [didi; kw_doc; kw_sync]
  /\ str_in didi text = true
  /\ str_in kw_sync text = true
  /\ count = 2 + (if str_in kw_doc text then 1 else 0)
              + (if str_in didi_parts text then 2 else 0)
  /\ 2 <= count
  /\ (forall rest, find_match row (jrow :: rest) = Some jrow).
Proof.
  intros row jrow s d Hn Hc Hs Hs' Hd Hd' text count.
  assert (K : incident_keywords row = [didi; kw_doc; kw_sync]).
  { unfold incident_keywords, incident_name. rewrite Hn, Hc. reflexivity. }
  assert (T1 : str_in didi text = true) by (eapply in_summary_text; eauto).
  assert (T2 : str_in kw_sync text = true)
    by (eapply in_description_text; eauto).
  assert (C : count = 2 + (if str_in kw_doc text then 1 else 0)
                      + (if str_in didi_parts text then 2 else 0)).
  { subst count. rewrite K. unfold match_count, incident_name. rewrite Hn.
    rewrite !keyword_hits_cons, T1, T2.
    unfold name_matches. cbn [cell_str].
    change (name_parts didi_report) with didi_parts.
    change (5 <? length didi_parts) with true.
    change (firstn 10 didi_parts) with didi_parts.
    rewrite andb_true_l. unfold keyword_hits. simpl. lia. }
  repeat split; try assumption.
  - lia.
  - intros rest. unfold find_match. apply scan_jira_head.
    fold text. fold count. lia.
Qed.

Lemma didi_scenario_witness :
  str_in didi (py "滴滴客户反馈") = true
  /\ str_in kw_sync (py "同步失败") = true
  /\ match_count (incident_keywords didi_incident)
       (incident_name didi_incident) (combined_text didi_issue) = 2
  /\ find_match didi_incident [didi_issue] = Some didi_issue.
Proof.
  split; [reflexivity|]. split; [reflexivity|].
  pose proof (didi_scenario didi_incident didi_issue
                (py "滴滴客户反馈") (py "同步失败")
                eq_refl eq_refl eq_refl eq_refl eq_refl eq_refl)
    as (_ & _ & _ & C & _ & F).
  split; [rewrite C; reflexivity | apply F].
Defined.

(** C8, as it is worded, fails on the value of the count: the summary
    滴滴文档故障 contains 滴滴, the description 同步失败 contains 同步, and
    the count is 3, the keyword 文档 of the report name being in the
    summary as well. *)
Lemma didi_count_three :
  report_name didi_incident = Some didi_report
  /\ customer didi_incident = None
  /\ str_in didi (notna_str (summary didi_doc_issue)) = true
  /\ str_in kw_sync (notna_str (description didi_doc_issue)) = true
  /\ match_count (incident_keywords didi_incident)
       (incident_name didi_incident) (combined_text didi_doc_issue) = 3
  /\ match_count (incident_keywords didi_incident)
       (incident_name didi_incident) (combined_text didi_doc_issue) <> 2.
Proof. repeat split; try reflexivity. discriminate. Qed.

(** *** Repeated keywords *)

Lemma count_occ_filter : forall (f : pystr -> bool) l x,
  count_occ pystr_eq_dec (filter f l) x
  = if f x then count_occ pystr_eq_dec l x else 0.
Proof.
  intros f l x. induction l as [|a l IH]; simpl.
  - now destruct (f x).
  - destruct (pystr_eq_dec a x) as [->|Ne].
    + destruct (f x) eqn:E; simpl.
      * destruct (pystr_eq_dec x x); [now rewrite IH | congruence].
      * exact IH.
    + destruct (f a); simpl; [|exact IH].
      destruct (pystr_eq_dec a x); [congruence | exact IH].
Qed.

Lemma count_occ_le_length : forall (l : list pystr) x,
  count_occ pystr_eq_dec l x <= length l.
Proof.
  intros l x. induction l as [|a l IH]; simpl; [lia|].
  destruct (pystr_eq_dec a x); lia.
Qed.

Lemma customers_nodup : NoDup customers.
Proof.
  unfold customers.
  repeat (constructor; [simpl; intuition discriminate|]). constructor.
Qed.

Lemma customers_not_terms : forall k,
  In k customers -> ~ In k (map fst domain_terms).
Proof.
  intros k Hk Ht. simpl in Ht.
  repeat (destruct Ht as [<-|Ht]; [simpl in Hk; intuition discriminate|]).
  exact Ht.
Qed.

Lemma customers_are_keywords : forall k,
  In k customers -> customer_keyword k = [k].
Proof.
  intros k Hk. simpl in Hk.
  repeat (destruct Hk as [<-|Hk]; [reflexivity|]). contradiction.
Qed.

(** C9.  When the customer field of an incident is a token of the customer
    list that is also a substring of the report name, the token is in the
    keyword list twice; a candidate whose text contains the token has a
    [match_count] of at least 2 from those two hits alone and is bound when
    the scan reaches it. *)
Theorem repeated_token_matches : forall (row : IncidentRecord) (tok : pystr),
  In tok customers ->
  customer row = Some tok ->
  str_in tok (incident_name row) = true ->
  count_occ pystr_eq_dec (incident_keywords row) tok = 2
  /\ (forall jrow,
        str_in tok (combined_text jrow) = true ->
        2 <= keyword_hits [tok; tok] (combined_text jrow)
        /\ 2 <= match_count (incident_keywords row) (incident_name row)
                  (combined_text jrow)
        /\ forall rest, find_match row (jrow :: rest) = Some jrow).
Proof.
  intros row tok Hin Hc Hn.
  assert (C : count_occ pystr_eq_dec (incident_keywords row) tok = 2).
  { rewrite incident_keywords_parts, !count_occ_app, count_occ_filter, Hn.
    unfold incident_customer. rewrite Hc. simpl notna_str.
    rewrite (customers_are_keywords _ Hin).
    pose proof customers_nodup as D.
    rewrite (NoDup_count_occ' pystr_eq_dec) in D.
    rewrite (D _ Hin).
    match goal with
    | |- context [count_occ ?dec (map fst ?l) tok] =>
        assert (Z : count_occ dec (map fst l) tok = 0)
    end.
    { apply count_occ_not_In. intros H.
      apply (customers_not_terms _ Hin).
      apply in_map_iff in H as (e & <- & He).
      apply filter_In in He as [He _]. now apply in_map. }
    rewrite Z. simpl.
    destruct (pystr_eq_dec tok tok); [reflexivity | congruence]. }
  split; [exact C|].
  intros jrow Ht.
  assert (M : 2 <= match_count (incident_keywords row) (incident_name row)
                     (combined_text jrow)).
  { unfold match_count, keyword_hits.
    pose proof (count_occ_le_length
                  (filter (fun kw => str_in kw (combined_text jrow))
                          (incident_keywords row)) tok) as L.
    rewrite count_occ_filter, Ht, C in L. lia. }
  repeat split.
  - rewrite !keyword_hits_cons, Ht. simpl. lia.
  - exact M.
  - intros rest. now apply scan_jira_head.
Qed.

Lemma repeated_token_matches_witness :
  incident_keywords repeated_incident = [didi; didi]
  /\ match_count (incident_keywords repeated_incident)
       (incident_name repeated_incident) (combined_text repeated_issue) = 2
  /\ find_match repeated_incident [repeated_issue] = Some repeated_issue.
Proof.
  split; [reflexivity|]. split; [reflexivity|].
  assert (Hin : In didi customers).
  { unfold customers. do 9 right. left. reflexivity. }
  pose proof (repeated_token_matches repeated_incident didi Hin
                eq_refl eq_refl) as [_ H].
  destruct (H repeated_issue eq_refl) as (_ & _ & F).
  apply F.
Defined.

End KeywordFacts.

(* ================================================================== *)
(** ** The reconciler: runs of the machine *)
(* ================================================================== *)

Section MachineFacts.
Import Reconciler Machine Examples.

Lemma step_deterministic : forall faults s s1 s2,
  step faults s s1 -> step faults s s2 -> s1 = s2.
Proof.
  intros faults s s1 s2 H1 H2.
  inversion H1; subst; inversion H2; subst; try reflexivity; lia.
Qed.

Lemma returned_no_step : forall faults o s,
  ~ step faults (mkState [] None o) s.
Proof. intros faults o s H. inversion H. Qed.

Lemma run_deterministic : forall faults s o1 o2,
  run faults s o1 -> run faults s o2 -> o1 = o2.
Proof.
  intros faults s o1 o2 H1. revert o2.
  induction H1 as [o|s s' o Hs Hr IH]; intros o2 H2.
  - inversion H2 as [|? s2 ? Hs2 Hr2]; subst; [reflexivity|].
    now apply returned_no_step in Hs2.
  - inversion H2 as [|? s2 ? Hs2 Hr2]; subst.
    + now apply returned_no_step in Hs.
    + rewrite <- (step_deterministic _ _ _ _ Hs Hs2) in Hr2. now apply IH.
Qed.

(** The inner loop, from any point of the scan. *)
Lemma run_scan : forall faults row rest js o o',
  run faults
    (mkState rest None
       (match scan_jira (incident_keywords row) (incident_name row) js with
        | Some jrow => mkOutput (matches o ++ [mkMatch row jrow]) (no_matches o)
        | None => mkOutput (matches o) (no_matches o ++ [row])
        end)) o' ->
  run faults (mkState rest (Some (row, js)) o) o'.
Proof.
  intros faults row rest js o o'.
  induction js as [|jrow js IH]; cbn [scan_jira]; intros H.
  - eapply run_step; [apply step_exhausted | exact H].
  - destruct (2 <=? match_count (incident_keywords row) (incident_name row)
                      (combined_text jrow)) eqn:E.
    + apply Nat.leb_le in E.
      eapply run_step; [now apply step_hit | exact H].
    + apply Nat.leb_gt in E.
      eapply run_step; [now apply step_miss | now apply IH].
Qed.

Lemma run_fold : forall faults incidents o,
  run faults (mkState incidents None o)
      (fold_left (record_outcome faults) incidents o).
Proof.
  intros faults incidents. induction incidents as [|row rest IH]; intros o.
  - apply run_return.
  - simpl fold_left. eapply run_step; [apply step_next|].
    apply run_scan. apply IH.
Qed.

Lemma reconciler_runs : forall incidents jira,
  Reconciles incidents jira (match_incidents_with_jira incidents jira).
Proof. intros. apply run_fold. Qed.

(** C6.  The run of the two loops on given incidents and issues exists and
    is unique: any two runs on the same inputs return the same two lists,
    which are those of [match_incidents_with_jira]; within a run, the entries
    of [matches] for one incident name one issue. *)
Theorem reconciler_deterministic :
  forall (incidents : list IncidentRecord) (jira : list IssueRecord),
  let result := match_incidents_with_jira incidents jira in
  Reconciles incidents jira result
  /\ (forall o1 o2,
        Reconciles incidents jira o1 -> Reconciles incidents jira o2 ->
        o1 = o2 /\ matches o1 = matches o2 /\ no_matches o1 = no_matches o2)
  /\ (forall o, Reconciles incidents jira o -> o = result)
  /\ (forall o e1 e2,
        Reconciles incidents jira o ->
        In e1 (matches o) -> In e2 (matches o) ->
        incident e1 = incident e2 -> Reconciler.jira e1 = Reconciler.jira e2).
Proof.
  intros incidents jira result.
  assert (U : forall o, Reconciles incidents jira o -> o = result).
  { intros o H. eapply run_deterministic; [exact H | apply reconciler_runs]. }
  split; [apply reconciler_runs|]. split; [|split; [exact U|]].
  - intros o1 o2 H1 H2. rewrite (U _ H1), (U _ H2). now repeat split.
  - intros o e1 e2 H H1 H2 E. rewrite (U _ H) in H1, H2.
    subst result. rewrite output_by_results in H1, H2. simpl matches in H1, H2.
    apply in_entries in H1 as [_ H1]. apply in_entries in H2 as [_ H2].
    rewrite E in H1. congruence.
Qed.

Lemma reconciler_deterministic_witness :
  Reconciles [repeated_incident; padded_incident; didi_incident]
             [other_issue; padded_issue; didi_issue; didi_doc_issue]
             (mkOutput [mkMatch repeated_incident didi_issue;
                        mkMatch didi_incident didi_issue]
                       [padded_incident]).
Proof.
  apply (reconciler_deterministic
           [repeated_incident; padded_incident; didi_incident]
           [other_issue; padded_issue; didi_issue; didi_doc_issue]).
Defined.

End MachineFacts.

(* ================================================================== *)
(** ** Cleaning and the pipeline of main *)
(* ================================================================== *)

Section PipelineFacts.
Import Reconciler Pipeline Examples MoreExamples.





Lemma filter_length_le' : forall (A : Type) (p : A -> bool) (l : list A),
  length (filter p l) <= length l.
Proof.
  intros A p l. induction l as [|x l IH]; simpl; [lia|].
  destruct (p x); simpl; lia.
Qed.





End PipelineFacts.

(* ================================================================== *)
(** ** More on the reconciler *)
(* ================================================================== *)

Section ReconcilerMore.
Import Reconciler Pipeline Examples MoreExamples.

Lemma keyword_hits_le : forall ks text, keyword_hits ks text <= length ks.
Proof. intros. unfold keyword_hits. apply filter_length_le'. Qed.

Lemma few_keywords_count : forall ks name text,
  length ks <= 1 ->
  (2 <=? match_count ks name text) = name_matches name text.
Proof.
  intros ks name text H. unfold match_count.
  pose proof (keyword_hits_le ks text) as L.
  destruct (name_matches name text).
  - apply Nat.leb_le. lia.
  - apply Nat.leb_gt. lia.
Qed.

Lemma scan_jira_ext : forall ks name (test : IssueRecord -> bool) rows,
  (forall c, (2 <=? match_count ks name (combined_text c)) = test c) ->
  scan_jira ks name rows = find test rows.
Proof.
  intros ks name test rows H. induction rows as [|c rows IH]; cbn [scan_jira find].
  - reflexivity.
  - rewrite H, IH. reflexivity.
Qed.

(** X3.  An incident with at most one keyword is matched on its name alone:
    a candidate reaches the threshold exactly when the partial name match of
    line 90 holds for it, the scan returns the first such candidate, and none
    when no candidate has it. *)
Theorem few_keywords_decided_by_name : forall row : IncidentRecord,
  length (incident_keywords row) <= 1 ->
  forall rows : list IssueRecord,
  find_match row rows
    = find (fun c => name_matches (incident_name row) (combined_text c)) rows
  /\ (find_match row rows = None <->
      forall c, In c rows ->
                name_matches (incident_name row) (combined_text c) = false).
Proof.
  intros row H rows.
  assert (E : find_match row rows
    = find (fun c => name_matches (incident_name row) (combined_text c)) rows).
  { unfold find_match. apply scan_jira_ext. intros c.
    now apply few_keywords_count. }
  split; [exact E|]. rewrite E. split.
  - intros Hn c Hc. exact (find_none _ _ Hn c Hc).
  - intros Hall. induction rows as [|c rows IH]; simpl; [reflexivity|].
    rewrite (Hall c (or_introl eq_refl)). apply IH.
    + unfold find_match. apply scan_jira_ext. intros c'.
      now apply few_keywords_count.
    + intros c' Hc'. apply Hall. now right.
Qed.

Lemma few_keywords_decided_by_name_witness :
  length (incident_keywords padded_incident) <= 1
  /\ find_match padded_incident [padded_issue; didi_issue] = None.
Proof.
  split; [simpl; lia|].
  apply (few_keywords_decided_by_name padded_incident); [simpl; lia|].
  intros c [<-|[<-|[]]]; reflexivity.
Defined.

Lemma customer_keyword_short : forall cust, length (customer_keyword cust) <= 1.
Proof.
  intros cust. unfold customer_keyword.
  destruct (truthy cust && negb (str_eqb cust s_nan)); simpl; lia.
Qed.

Lemma nameless_find_match : forall row rows,
  report_name row = None -> find_match row rows = None.
Proof.
  intros row rows H. unfold find_match.
  assert (N : incident_name row = s_nan)
    by (unfold incident_name; now rewrite H).
  apply scan_jira_none, Forall_forall. intros c _.
  apply Nat.leb_gt. rewrite few_keywords_count.
  - rewrite N. reflexivity.
  - unfold incident_keywords. rewrite N. apply customer_keyword_short.
Qed.

(** X4.  A row whose report name is missing is read as the text nan: it has
    no keyword but its customer and a name too short for the partial match,
    so it is bound to no issue, whatever the tracker holds, and a table that
    was not cleaned returns it in [no_matches]. *)
Theorem nameless_incident_unmatched :
  forall (row : IncidentRecord) (incidents : list IncidentRecord)
         (jira : list IssueRecord),
  report_name row = None ->
  find_match row (jira_faults jira) = None
  /\ ~ In row (map incident (matches (match_incidents_with_jira incidents jira)))
  /\ (In row incidents ->
      In row (no_matches (match_incidents_with_jira incidents jira))).
Proof.
  intros row incidents jira H.
  pose proof (nameless_find_match row (jira_faults jira) H) as F.
  split; [exact F|]. rewrite output_by_results. simpl.
  rewrite matched_incidents, unmatched_incidents. split.
  - intros Hin. apply filter_In in Hin as [_ Hm].
    unfold is_matched in Hm. rewrite F in Hm. discriminate.
  - intros Hin. apply filter_In. split; [exact Hin|].
    unfold is_matched. now rewrite F.
Qed.

Lemma nameless_incident_unmatched_witness :
  report_name nameless_incident = None
  /\ str_in didi (combined_text repeated_issue) = true
  /\ In nameless_incident
       (no_matches
          (match_incidents_with_jira [nameless_incident] [repeated_issue])).
Proof.
  split; [reflexivity|]. split; [reflexivity|].
  destruct (nameless_incident_unmatched nameless_incident
              [nameless_incident] [repeated_issue] eq_refl) as (_ & _ & H).
  apply H. now left.
Defined.

Lemma no_candidate_output : forall incidents jira,
  jira_faults jira = [] ->
  match_incidents_with_jira incidents jira = mkOutput [] incidents.
Proof.
  intros incidents jira H. unfold match_incidents_with_jira.
  rewrite fold_record_outcome, H. simpl. f_equal.
  - induction incidents as [|r l IH]; simpl; [reflexivity | exact IH].
  - induction incidents as [|r l IH]; simpl; [reflexivity | now rewrite IH].
Qed.

(** X5.  When the tracker holds no row of type 故障 (an empty export
    included), nothing is matched and [no_matches] is the list of incidents
    as it was given. *)
Theorem no_fault_rows_all_unmatched :
  forall (incidents : list IncidentRecord) (jira : list IssueRecord),
  (forall c, In c jira -> issue_type c <> Some s_fault) ->
  match_incidents_with_jira incidents jira = mkOutput [] incidents.
Proof.
  intros incidents jira H. apply no_candidate_output.
  unfold jira_faults. induction jira as [|c l IH]; simpl; [reflexivity|].
  destruct (is_fault c) eqn:E.
  - apply is_fault_iff in E. exfalso. apply (H c); [now left | exact E].
  - apply IH. intros c' Hc'. apply H. now right.
Qed.

Lemma no_fault_rows_all_unmatched_witness :
  match_incidents_with_jira [didi_incident; repeated_incident] [other_issue]
  = mkOutput [] [didi_incident; repeated_incident]
  /\ match_incidents_with_jira [didi_incident] [] = mkOutput [] [didi_incident].
Proof.
  split.
  - apply no_fault_rows_all_unmatched.
    intros c [<-|[]]. discriminate.
  - apply no_fault_rows_all_unmatched. intros c [].
Defined.

Lemma is_matched_existsb : forall jira row,
  is_matched jira row
  = existsb (fun c => is_fault c
                      && (2 <=? match_count (incident_keywords row)
                                  (incident_name row) (combined_text c)))
            jira.
Proof.
  intros jira row. unfold is_matched, find_match, jira_faults.
  induction jira as [|c l IH]; cbn [filter existsb]; [reflexivity|].
  destruct (is_fault c); cbn [andb orb scan_jira]; [|exact IH].
  destruct (2 <=? match_count (incident_keywords row) (incident_name row)
                    (combined_text c)); [reflexivity | exact IH].
Qed.

Lemma existsb_incl : forall (A : Type) (p : A -> bool) (l l' : list A),
  (forall x, In x l -> In x l') -> existsb p l = true -> existsb p l' = true.
Proof.
  intros A p l l' H E. apply existsb_exists in E as (x & Hx & Px).
  apply existsb_exists. exists x. split; [now apply H | exact Px].
Qed.

Lemma is_matched_incl : forall jira jira' row,
  (forall c, In c jira -> In c jira') ->
  is_matched jira row = true -> is_matched jira' row = true.
Proof.
  intros jira jira' row H. rewrite !is_matched_existsb.
  now apply existsb_incl.
Qed.

Lemma is_matched_same_rows : forall jira jira' row,
  (forall c, In c jira <-> In c jira') ->
  is_matched jira row = is_matched jira' row.
Proof.
  intros jira jira' row H. apply eq_true_iff_eq. split.
  - apply is_matched_incl. intros c. apply H.
  - apply is_matched_incl. intros c. apply H.
Qed.

(** X6.  Which incidents are matched does not depend on the order of the
    tracker rows: for two tables with the same rows in another order, the
    matched incidents, the unmatched incidents and hence the two counts of
    the report are the same (the issue bound to an incident may differ). *)
Theorem row_order_keeps_split :
  forall (incidents : list IncidentRecord) (jira jira' : list IssueRecord),
  Permutation jira jira' ->
  let o := match_incidents_with_jira incidents jira in
  let o' := match_incidents_with_jira incidents jira' in
  map incident (matches o) = map incident (matches o')
  /\ no_matches o = no_matches o'
  /\ length (matches o) = length (matches o').
Proof.
  intros incidents jira jira' P o o'. subst o o'.
  rewrite !output_by_results. simpl.
  assert (E : forall row, is_matched jira row = is_matched jira' row).
  { intros row. apply is_matched_same_rows. intros c. split.
    - now apply Permutation_in.
    - apply Permutation_in. now apply Permutation_sym. }
  assert (M : map incident (flat_map entry_of (match_results incidents jira))
              = map incident (flat_map entry_of (match_results incidents jira'))).
  { rewrite !matched_incidents. apply filter_ext. exact E. }
  split; [exact M|]. split.
  - rewrite !unmatched_incidents. apply filter_ext. intros row. now rewrite E.
  - rewrite <- (length_map incident), M. apply length_map.
Qed.

Lemma row_order_keeps_split_witness :
  matches (match_incidents_with_jira [didi_incident]
             [didi_issue; didi_doc_issue])
    = [mkMatch didi_incident didi_issue]
  /\ matches (match_incidents_with_jira [didi_incident]
                [didi_doc_issue; didi_issue])
    = [mkMatch didi_incident didi_doc_issue]
  /\ no_matches (match_incidents_with_jira [didi_incident]
                   [didi_issue; didi_doc_issue])
    = no_matches (match_incidents_with_jira [didi_incident]
                    [didi_doc_issue; didi_issue]).
Proof.
  split; [reflexivity|]. split; [reflexivity|].
  apply (row_order_keeps_split [didi_incident]
           [didi_issue; didi_doc_issue] [didi_doc_issue; didi_issue]).
  apply perm_swap.
Defined.

Lemma scan_jira_app : forall ks name rows more,
  scan_jira ks name (rows ++ more)
  = match scan_jira ks name rows with
    | Some jrow => Some jrow
    | None => scan_jira ks name more
    end.
Proof.
  intros ks name rows more.
  induction rows as [|c rows IH]; cbn [app scan_jira]; [reflexivity|].
  destruct (2 <=? match_count ks name (combined_text c)); [reflexivity | exact IH].
Qed.

Lemma find_match_more : forall row jira more jrow,
  find_match row (jira_faults jira) = Some jrow ->
  find_match row (jira_faults (jira ++ more)) = Some jrow.
Proof.
  intros row jira more jrow H. unfold find_match, jira_faults in *.
  now rewrite filter_app, scan_jira_app, H.
Qed.

Lemma filter_length_mono : forall (A : Type) (p q : A -> bool) (l : list A),
  (forall x, p x = true -> q x = true) ->
  length (filter p l) <= length (filter q l).
Proof.
  intros A p q l H. induction l as [|x l IH]; simpl; [lia|].
  destruct (p x) eqn:P.
  - rewrite (H x P). simpl. lia.
  - destruct (q x); simpl; lia.
Qed.

(** X7.  Rows added at the end of the tracker export leave every binding as
    it was: an incident bound to an issue stays bound to the same issue, the
    entries of [matches] are kept, and the only change is that unmatched
    incidents may become matched. *)
Theorem appended_rows_keep_bindings :
  forall (incidents : list IncidentRecord) (jira more : list IssueRecord),
  let o := match_incidents_with_jira incidents jira in
  let o' := match_incidents_with_jira incidents (jira ++ more) in
  (forall row jrow,
     find_match row (jira_faults jira) = Some jrow ->
     find_match row (jira_faults (jira ++ more)) = Some jrow)
  /\ (forall e, In e (matches o) -> In e (matches o'))
  /\ (forall row, In row (no_matches o') -> In row (no_matches o))
  /\ length (matches o) <= length (matches o').
Proof.
  intros incidents jira more o o'. subst o o'.
  rewrite !output_by_results. simpl.
  split; [intros row jrow; apply find_match_more|]. split; [|split].
  - intros e He. apply in_entries in He as [H1 H2].
    apply in_entries. split; [exact H1 | now apply find_match_more].
  - intros row Hr. apply in_unmatched in Hr as [H1 H2].
    apply in_unmatched. split; [exact H1|].
    destruct (find_match row (jira_faults jira)) as [j|] eqn:E; [|reflexivity].
    rewrite (find_match_more _ _ more _ E) in H2. discriminate.
  - rewrite <- !(length_map incident), !matched_incidents.
    apply filter_length_mono. intros row.
    apply is_matched_incl. intros c Hc. apply in_or_app. now left.
Qed.

(** X8.  Each incident is handled on its own: the result for two tables of
    incidents put one after the other is the result for the first followed,
    list by list, by the result for the second. *)
Theorem incidents_handled_independently :
  forall (first second : list IncidentRecord) (jira : list IssueRecord),
  match_incidents_with_jira (first ++ second) jira
  = mkOutput
      (matches (match_incidents_with_jira first jira)
       ++ matches (match_incidents_with_jira second jira))
      (no_matches (match_incidents_with_jira first jira)
       ++ no_matches (match_incidents_with_jira second jira)).
Proof.
  intros first second jira. rewrite !output_by_results. simpl.
  unfold match_results. now rewrite map_app, !flat_map_app.
Qed.

(** X9.  The name shown for an unmatched incident in the report has at most
    33 code points: a name of up to 30 code points is shown whole, a longer
    one as its first 30 code points followed by three dots. *)
Theorem shown_name_bounded : forall row : IncidentRecord,
  let name := cell_str (report_name row) in
  length (shown_name row) <= 33
  /\ (length name <= 30 -> shown_name row = name)
  /\ (30 < length name ->
      shown_name row = firstn 30 name ++ s_dots
      /\ length (shown_name row) = 33)
  /\ firstn 30 (shown_name row) = firstn 30 name.
Proof.
  intros row name. subst name. unfold shown_name.
  set (name := cell_str (report_name row)).
  destruct (30 <? length name) eqn:E.
  - apply Nat.ltb_lt in E.
    assert (L : length (firstn 30 name) = 30)
      by (apply firstn_length_le; lia).
    assert (T : length (firstn 30 name ++ s_dots) = 33)
      by (rewrite length_app, L; reflexivity).
    repeat split; try lia; try reflexivity; try exact T.
    rewrite firstn_app, L, Nat.sub_diag, firstn_O, app_nil_r.
    rewrite firstn_firstn. reflexivity.
  - apply Nat.ltb_ge in E. repeat split; try lia; reflexivity.
Qed.

End ReconcilerMore.

(* ================================================================== *)
(** ** More on the classifier *)
(* ================================================================== *)

Section ClassifierMore.
Import Classifier Monthly Examples MoreExamples.

Lemma env_is_saas_lowered : forall env,
  env_is_saas env = str_in s_saas (lower env).
Proof.
  intros env. destruct (str_in s_saas (lower env)) eqn:E.
  - unfold env_is_saas. rewrite E. apply orb_true_r.
  - now apply not_saas_any_case.
Qed.

Lemma customer_is_saas_exact : forall customer,
  customer_is_saas customer = str_in SaaS customer.
Proof.
  intros customer. destruct (str_in SaaS customer) eqn:E.
  - unfold customer_is_saas. rewrite E. apply orb_true_r.
  - now apply exact_saas_customer.
Qed.

Lemma customer_is_named_visible : forall customer,
  customer_is_named customer = negb (all_space customer).
Proof.
  intros customer. unfold customer_is_named.
  destruct customer as [|c t]; [reflexivity|]. simpl truthy.
  destruct (all_space (c :: t)) eqn:E.
  - apply strip_nil_iff in E. now rewrite E.
  - destruct (strip (c :: t)) eqn:S; [|reflexivity].
    apply strip_nil_iff in S. congruence.
Qed.

(** A customer caught by the SDK rule or by the list of known customers is
    caught by the rule for named customers as well. *)
Lemma special_customers_named : forall customer,
  customer_is_sdk customer || customer_is_known_private customer = true ->
  customer_is_named customer = true.
Proof.
  intros customer H. rewrite customer_is_named_visible.
  destruct (all_space customer) eqn:E; [|reflexivity].
  destruct (blank_customer_tests _ E) as (_ & H1 & H2 & _).
  rewrite H1, H2 in H. discriminate.
Qed.

Lemma classify_short : forall row,
  classify_deployment row
  = let env := notna_str (discovery_environment row) in
    let customer := notna_str (customer_name row) in
    if str_in s_saas (lower env) then SaaS
    else if str_in Private env then Private
    else if str_in SaaS customer then SaaS
    else if all_space customer then Unclassified
    else Private.
Proof.
  intros row. unfold classify_deployment. cbv zeta.
  rewrite env_is_saas_lowered, customer_is_saas_exact.
  unfold env_is_private.
  destruct (str_in s_saas (lower _)); [reflexivity|].
  destruct (str_in Private _); [reflexivity|].
  destruct (str_in SaaS _); [reflexivity|].
  set (customer := notna_str (customer_name row)).
  pose proof (special_customers_named customer) as N.
  rewrite customer_is_named_visible in *.
  destruct (customer_is_sdk customer), (customer_is_known_private customer),
           (all_space customer); simpl in *;
    try reflexivity; specialize (N eq_refl); discriminate.
Qed.

(** X10.  The cascade of [classify_deployment] has the outcome of a shorter
    one: the exact-case test of the environment, the comparison with SaaS客户,
    the SDK rule and the list of known customers never change the label,
    which is SaaS when the lowered environment contains saas, else 私有化 when
    the environment contains 私有化, else SaaS when the customer name contains
    SaaS, else 未分类 when the customer name is blank, else 私有化.  So a row
    is 未分类 exactly when its environment has neither marker and its
    customer name is missing, empty or whitespace. *)
Theorem classify_short_cascade : forall row : IssueRecord,
  let env := notna_str (discovery_environment row) in
  let customer := notna_str (customer_name row) in
  classify_deployment row
  = (if str_in s_saas (lower env) then SaaS
     else if str_in Private env then Private
     else if str_in SaaS customer then SaaS
     else if all_space customer then Unclassified
     else Private)
  /\ (classify_deployment row = Unclassified <->
      str_in s_saas (lower env) = false /\ str_in Private env = false
      /\ all_space customer = true)
  /\ (classify_deployment row = SaaS <->
      str_in s_saas (lower env) = true
      \/ (str_in Private env = false /\ str_in SaaS customer = true)).
Proof.
  intros row env customer. pose proof (classify_short row) as E.
  cbv zeta in E. fold env customer in E.
  split; [exact E|]. rewrite E.
  assert (B : all_space customer = true -> str_in SaaS customer = false).
  { intros H. apply str_in_blank; [reflexivity | exact H]. }
  destruct (str_in s_saas (lower env)), (str_in Private env),
           (str_in SaaS customer) eqn:C, (all_space customer) eqn:A;
    try (specialize (B eq_refl); discriminate);
    split; split; intros H; try discriminate; try tauto;
    try (destruct H as (? & ? & ?); discriminate);
    try (destruct H as [?|[? ?]]; discriminate);
    try reflexivity.
Qed.


End ClassifierMore.

(* ================================================================== *)
(** ** Counts and rates *)
(* ================================================================== *)

Section StatsFacts.
Import Classifier Reconciler Stats Comparison Examples MoreExamples.






Example resolution_stats_sample :
  analyze_resolution_stats true sample_tracker
  = mkResolutionStats 2 1 (Percent 1 2)
      (Some (mkSeverityStats 1 1 (Percent 1 1) 0 0 Zero)) 0
  /\ analyze_resolution_stats false []
     = mkResolutionStats 0 0 Zero None 0.
Proof. split; reflexivity. Qed.

(** *** The three classes of analyze_saas_private.py *)

Lemma one_label : forall r : TrackerRow,
  let l := classify_deployment (base r) in
  (str_eqb l SaaS = true /\ str_eqb l Private = false
   /\ str_eqb l Unclassified = false)
  \/ (str_eqb l SaaS = false /\ str_eqb l Private = true
      /\ str_eqb l Unclassified = false)
  \/ (str_eqb l SaaS = false /\ str_eqb l Private = false
      /\ str_eqb l Unclassified = true).
Proof.
  intros r l. subst l.
  destruct (classify_cases (base r)) as [H|[H|H]]; rewrite H;
    [left | right; left | right; right]; repeat split.
Qed.

Lemma three_classes_perm : forall bugs,
  Permutation (saas_df bugs ++ private_df bugs ++ unclassified_df bugs) bugs.
Proof.
  intros bugs. unfold saas_df, private_df, unclassified_df, with_label.
  induction bugs as [|r l IH]; simpl; [constructor|].
  destruct (one_label r) as [(A & B & C)|[(A & B & C)|(A & B & C)]];
    cbv zeta in A, B, C; rewrite A, B, C.
  - simpl. now constructor.
  - apply Permutation_sym, Permutation_cons_app, Permutation_sym, IH.
  - rewrite app_assoc.
    apply Permutation_sym, Permutation_cons_app, Permutation_sym.
    rewrite <- app_assoc. exact IH.
Qed.

Lemma three_classes_lengths : forall bugs,
  length (saas_df bugs) + length (private_df bugs)
  + length (unclassified_df bugs) = length bugs.
Proof.
  intros bugs. pose proof (three_classes_perm bugs) as P.
  apply Permutation_length in P. rewrite !length_app in P. lia.
Qed.

(** X12.  The three tables the script separates split the bugs: every bug
    is in exactly one of them, the three counts of the overview add up to
    the total printed under them, and the sizes of the pie chart, from which
    an empty third class is removed, add up to it as well. *)
Theorem three_classes_split : forall bugs : list TrackerRow,
  Permutation (saas_df bugs ++ private_df bugs ++ unclassified_df bugs) bugs
  /\ length (saas_df bugs) + length (private_df bugs)
     + length (unclassified_df bugs) = length bugs
  /\ (forall r, In r bugs ->
        (In r (saas_df bugs) /\ ~ In r (private_df bugs)
         /\ ~ In r (unclassified_df bugs))
        \/ (~ In r (saas_df bugs) /\ In r (private_df bugs)
            /\ ~ In r (unclassified_df bugs))
        \/ (~ In r (saas_df bugs) /\ ~ In r (private_df bugs)
            /\ In r (unclassified_df bugs)))
  /\ fold_right Nat.add 0 (pie_sizes bugs) = length bugs
  /\ (length (pie_sizes bugs) = 2 <-> unclassified_df bugs = [])
  /\ (length (pie_sizes bugs) = 3 <-> unclassified_df bugs <> []).
Proof.
  intros bugs. pose proof (three_classes_perm bugs) as P.
  pose proof (three_classes_lengths bugs) as L.
  split; [exact P|]. split; [exact L|]. split.
  { intros r Hr. unfold saas_df, private_df, unclassified_df, with_label.
    rewrite !filter_In.
    destruct (one_label r) as [(A & B & C)|[(A & B & C)|(A & B & C)]];
      cbv zeta in A, B, C; rewrite A, B, C;
      [left | right; left | right; right];
      repeat split; try assumption; intros [_ H]; discriminate. }
  unfold pie_sizes. cbv zeta. cbn [nth].
  destruct (unclassified_df bugs) as [|u us] eqn:U; simpl in *.
  - repeat split; try lia; congruence.
  - repeat split; try lia; try congruence; discriminate.
Qed.



End StatsFacts.

(* ================================================================== *)
(** ** More on the keywords *)
(* ================================================================== *)

Section KeywordMore.
Import Reconciler Described Examples MoreExamples.

Lemma nodup_app : forall (l l' : list pystr),
  NoDup l -> NoDup l' -> (forall x, In x l -> ~ In x l') -> NoDup (l ++ l').
Proof.
  intros l l' H H' D. induction H as [|x l Hx H IH]; simpl; [exact H'|].
  constructor.
  - rewrite in_app_iff. intros [G|G]; [contradiction|].
    apply (D x); [now left | exact G].
  - apply IH. intros y Hy. apply D. now right.
Qed.

Lemma terms_nodup : forall name,
  NoDup (map fst (filter (triggered name) domain_terms)).
Proof.
  intros name. unfold domain_terms. cbn [filter].
  destruct (triggered name (kw_table, _)), (triggered name (kw_doc, _)),
           (triggered name (kw_sync, _)), (triggered name (kw_login, _)),
           (triggered name (kw_blank, _)); cbn [map fst];
    repeat (constructor; [simpl; intuition discriminate|]); constructor.
Qed.

Lemma extract_keywords_nodup : forall text, NoDup (extract_keywords text).
Proof.
  intros [name|]; [|constructor].
  rewrite extract_keywords_terms. apply nodup_app.
  - apply NoDup_filter, customers_nodup.
  - apply terms_nodup.
  - intros x Hx Ht. apply filter_In in Hx as [Hx _].
    apply (customers_not_terms x Hx).
    apply in_map_iff in Ht as (e & <- & He).
    apply filter_In in He as [He _]. now apply in_map.
Qed.

(** X11.  [extract_keywords] never returns a keyword twice, and returns at
    most 21 of them; the keyword list of an incident has a repeated entry
    exactly when the customer field adds a keyword that the report name gave
    already. *)
Theorem keywords_repeat_only_customer : forall row : IncidentRecord,
  NoDup (extract_keywords (Some (incident_name row)))
  /\ length (extract_keywords (Some (incident_name row))) <= 21
  /\ (NoDup (incident_keywords row) <->
      forall k, In k (customer_keyword (incident_customer row)) ->
                ~ In k (extract_keywords (Some (incident_name row)))).
Proof.
  intros row.
  pose proof (extract_keywords_nodup (Some (incident_name row))) as N.
  split; [exact N|]. split.
  - rewrite extract_keywords_terms, length_app, length_map.
    pose proof (filter_length_le' _ (fun c => str_in c (incident_name row))
                  customers) as L1.
    pose proof (filter_length_le' _ (triggered (incident_name row))
                  domain_terms) as L2.
    change (length customers) with 16 in L1.
    change (length domain_terms) with 5 in L2. lia.
  - unfold incident_keywords. split.
    + intros D k Hk Hin.
      apply in_split in Hin as (l1 & l2 & E). rewrite E in D.
      rewrite <- app_assoc in D. simpl in D.
      apply NoDup_remove_2 in D. apply D.
      rewrite !in_app_iff. now right; right.
    + intros H. apply nodup_app; [exact N| |].
      * unfold customer_keyword.
        destruct (truthy _ && negb _); repeat constructor. intros [].
      * intros x Hx Hk. exact (H x Hk Hx).
Qed.

(** *** The separators of the candidate text *)

Lemma prefix_before_separator : forall (sp : N) kw y a b,
  ~ In sp kw -> kw ++ y = a ++ sp :: b -> exists y', a = kw ++ y'.
Proof.
  intros sp kw. induction kw as [|k kw IH]; intros y a b Hsp E.
  - now exists a.
  - destruct a as [|c a]; simpl in E; injection E as -> E.
    + exfalso. apply Hsp. now left.
    + destruct (IH y a b) as [y' ->]; [|exact E|now exists y'].
      intros H. apply Hsp. now right.
Qed.

Lemma occurrence_beside_separator : forall (sp : N) kw x y a b,
  ~ In sp kw -> x ++ kw ++ y = a ++ sp :: b ->
  (exists y', a = x ++ kw ++ y') \/ (exists x', b = x' ++ kw ++ y).
Proof.
  intros sp kw x. induction x as [|c x IH]; intros y a b Hsp E.
  - left. simpl in *. eapply prefix_before_separator; eauto.
  - destruct a as [|d a]; simpl in E; injection E as -> E.
    + right. now exists x.
    + destruct (IH y a b Hsp E) as [[y' ->]|[x' ->]].
      * left. now exists y'.
      * right. now exists x'.
Qed.

Lemma str_in_across : forall (sp : N) kw a b,
  ~ In sp kw ->
  str_in kw (a ++ sp :: b) = str_in kw a || str_in kw b.
Proof.
  intros sp kw a b Hsp. apply eq_true_iff_eq. rewrite orb_true_iff. split.
  - intros H. apply str_in_inv in H as (x & y & E). symmetry in E.
    destruct (occurrence_beside_separator sp kw x y a b Hsp E)
      as [[y' ->]|[x' ->]]; [left | right]; apply str_in_intro.
  - intros [H|H].
    + now apply str_in_app_l.
    + apply str_in_app_r with (t := a ++ [sp]) in H.
      now rewrite <- app_assoc in H.
Qed.

Lemma extracted_without_space : forall text kw,
  In kw (extract_keywords text) -> ~ In 32%N kw.
Proof.
  intros [name|] kw H; [|contradiction].
  rewrite extract_keywords_terms, in_app_iff in H.
  assert (G : In kw (customers ++ map fst domain_terms)).
  { apply in_or_app. destruct H as [H|H].
    - left. now apply filter_In in H as [H _].
    - right. apply in_map_iff in H as (e & <- & He).
      apply filter_In in He as [He _]. now apply in_map. }
  clear H. simpl in G.
  repeat (destruct G as [<-|G]; [simpl; intuition discriminate|]).
  contradiction.
Qed.

(** X16.  The spaces that join the three fields of a candidate keep a
    keyword inside one field: a keyword without a space, and so every
    keyword that [extract_keywords] returns, is a substring of the candidate
    text exactly when it is a substring of the summary, of the description
    or of the customer name. *)
Theorem keyword_found_in_one_field :
  forall (kw : pystr) (jrow : IssueRecord),
  ~ In 32%N kw \/ (exists text, In kw (extract_keywords text)) ->
  str_in kw (combined_text jrow)
  = str_in kw (notna_str (summary jrow))
    || str_in kw (notna_str (description jrow))
    || str_in kw (notna_str (customer_name jrow)).
Proof.
  intros kw jrow H.
  assert (S : ~ In 32%N kw).
  { destruct H as [H|[text H]]; [exact H|].
    eapply extracted_without_space; eauto. }
  unfold combined_text. change s_space with [32%N]. cbn [app].
  rewrite !str_in_across by exact S. now rewrite orb_assoc.
Qed.

Lemma keyword_found_in_one_field_witness :
  In didi (extract_keywords (Some didi_report))
  /\ str_in didi (combined_text didi_issue)
     = str_in didi (notna_str (summary didi_issue))
       || str_in didi (notna_str (description didi_issue))
       || str_in didi (notna_str (customer_name didi_issue)).
Proof.
  assert (H : In didi (extract_keywords (Some didi_report)))
    by (now left).
  split; [exact H|].
  apply (keyword_found_in_one_field didi didi_issue).
  right. now exists (Some didi_report).
Defined.

End KeywordMore.
